(** * TCP echo server sketch: client registry and server loop

    A shallow embedding of the echo-server sketch of the CC3000 library
    (the linked list of connected clients, [addNewClient], [removeClient]
    and [echoLoop]) together with proofs of the registry invariants and of
    the per-tick behaviour of the server loop.

    The sketch keeps its clients in a heap-allocated, singly linked list
    threaded through [ClientList::next].  The embedding keeps that shape:
    a heap of [ClientList] blocks addressed by non-null pointers, the three
    globals of the sketch, and the collaborators the sketch talks to (the
    CC3000 sessions, the listening socket, the allocator, the serial
    console) as explicit components of the machine state.

    The boot of the sketch ([setup], [echoSetup],
    [displayConnectionDetails]) and the firmware-version check of the
    SmartConfig sketch are embedded too, with the answers of the firmware
    as data. *)

From stdpp Require Import gmap strings list fin_maps.
From Stdlib Require Import ZArith.
From Stdlib.Strings Require Import Byte Ascii.

(** ** Data model *)

(** A non-null pointer to a [ClientList] block; [ptr] adds [NULL]. *)
Abbreviation addr := positive.
Abbreviation ptr := (option positive).
Abbreviation NULL := (@None positive).

(** [Adafruit_CC3000_Client(socket)]: the client object wraps the socket
    handle it was constructed with; the session itself lives in the
    CC3000. *)
Record Adafruit_CC3000_Client := Client { client_socket : Z }.

(** [struct ClientList { int socket; Adafruit_CC3000_Client client;
    ClientList* next; }] *)
Record ClientList := mkClientList {
  socket : Z;
  client : Adafruit_CC3000_Client;
  next : ptr
}.

(** Modelled from the spec: the session behind a client object (the
    library class [Adafruit_CC3000_Client] is not part of the sketch).  A
    session exposes a byte-available count, a byte read, a byte write and a
    liveness check.  [rxbuf] holds the bytes received and not yet read, in
    arrival order; [txlog] the bytes written back so far; [wfail] tells for
    each of the coming [write] calls whether it fails (returns 0), a write
    past the end of [wfail] succeeds; [live] is the answer of the liveness
    check. *)
Record Session := mkSession {
  rxbuf : list byte;
  txlog : list byte;
  wfail : list bool;
  live : bool
}.

(** What the sketch does to the outside world, in the order it does it.
    Calls on a client object are tagged with the list node whose [client]
    field receives the call. *)
Inductive event :=
| EvAvailable (i : addr) (n : Z)
| EvRead (i : addr) (ch : byte)
| EvWrite (i : addr) (ch : byte) (r : Z)
| EvConnected (i : addr) (r : bool)
| EvAccept (sd : Z) (r : Z)
| EvMalloc (r : ptr)
| EvFree (p : addr)
| EvPrint (s : string)
| EvPrintInt (n : Z)
| EvPrintln (s : string)
| EvPrintlnInt (n : Z).

(** The machine state: the heap of list nodes, the three globals of the
    sketch, and the collaborators: [net] maps a socket handle to its
    session, [pending] lists the results the coming [accept] calls return (a
    socket handle, or a negative value), [mallocs] the blocks the allocator
    would hand out on the coming [malloc] calls, [trace] records the events
    so far, oldest first.  [int] is modelled by [Z].  Signed overflow is
    undefined in C++, so [clientCount++] and [clientCount--] mean [+ 1] and
    [- 1] only while the count stays within [INT_MIN] and [INT_MAX]: a
    theorem that states the count after one of them either starts from the
    empty registry, where the count is the number of live nodes, or assumes
    the count to be the length of the chain or to be in range. *)
Record State := mkState {
  heap : gmap positive ClientList;
  clients : ptr;
  clientCount : Z;
  listenSocket : Z;
  net : gmap Z Session;
  pending : list Z;
  mallocs : list ptr;
  trace : list event
}.

Definition MAX_CLIENTS : Z := 3.

(** The range of [int] on the AVR boards the sketch is written for, where
    [int] is 16 bits wide. *)
Definition INT_MAX : Z := 32767.
Definition INT_MIN : Z := -32768.

(** ** The execution monad

    A computation reads and updates the machine state and either returns,
    dereferences a pointer to no live block ([Fault]), or exhausts the
    budget of a loop ([OutOfFuel]). *)
Inductive result (A : Type) :=
| Ok (a : A)
| Fault
| OutOfFuel.
Arguments Ok {A} a.
Arguments Fault {A}.
Arguments OutOfFuel {A}.

Definition M (A : Type) := State → result (A * State).

Definition ret {A} (a : A) : M A := λ st, Ok (a, st).

Definition bind {A B} (k : A → M B) (m : M A) : M B :=
  λ st, match m st with
        | Ok (a, st') => k a st'
        | Fault => Fault
        | OutOfFuel => OutOfFuel
        end.

(** [x ← m; k] and [m;; k] are stdpp's notations for [bind]. *)
#[global] Instance M_ret : MRet M := @ret.
#[global] Instance M_bind : MBind M := @bind.

Definition out_of_fuel {A} : M A := λ _, OutOfFuel.

Definition get {A} (f : State → A) : M A := λ st, Ok (f st, st).

Definition set_heap (h : gmap positive ClientList) (st : State) : State :=
  mkState h (clients st) (clientCount st) (listenSocket st)
          (net st) (pending st) (mallocs st) (trace st).
Definition set_clients (p : ptr) (st : State) : State :=
  mkState (heap st) p (clientCount st) (listenSocket st)
          (net st) (pending st) (mallocs st) (trace st).
Definition set_clientCount (n : Z) (st : State) : State :=
  mkState (heap st) (clients st) n (listenSocket st)
          (net st) (pending st) (mallocs st) (trace st).
Definition set_net (w : gmap Z Session) (st : State) : State :=
  mkState (heap st) (clients st) (clientCount st) (listenSocket st)
          w (pending st) (mallocs st) (trace st).
Definition set_pending (q : list Z) (st : State) : State :=
  mkState (heap st) (clients st) (clientCount st) (listenSocket st)
          (net st) q (mallocs st) (trace st).
Definition set_mallocs (q : list ptr) (st : State) : State :=
  mkState (heap st) (clients st) (clientCount st) (listenSocket st)
          (net st) (pending st) q (trace st).
Definition emit (e : event) (st : State) : State :=
  mkState (heap st) (clients st) (clientCount st) (listenSocket st)
          (net st) (pending st) (mallocs st) (trace st ++ [e]).

Definition modify (f : State → State) : M unit := λ st, Ok (tt, f st).

(** A call that always returns: its answer and the state it leaves. *)
Definition call {A} (f : State → A * State) : M A := λ st, Ok (f st).

(** *** Memory *)

(** [p->field] for reading: the block must be live. *)
Definition load (p : addr) : M ClientList :=
  λ st, match heap st !! p with
        | Some n => Ok (n, st)
        | None => Fault
        end.

(** [p->field = v]: the block must be live. *)
Definition store (p : addr) (upd : ClientList → ClientList) : M unit :=
  λ st, match heap st !! p with
        | Some n => Ok (tt, set_heap (<[p := upd n]> (heap st)) st)
        | None => Fault
        end.

Definition with_socket (v : Z) (n : ClientList) : ClientList :=
  mkClientList v (client n) (next n).
Definition with_client (v : Adafruit_CC3000_Client) (n : ClientList) : ClientList :=
  mkClientList (socket n) v (next n).
Definition with_next (v : ptr) (n : ClientList) : ClientList :=
  mkClientList (socket n) (client n) v.

(** The contents of a block fresh from [malloc]; every field is written
    before it is read. *)
Definition junk : ClientList := mkClientList 0 (Client 0) NULL.

(** [malloc(sizeof(ClientList))]: the allocator answers [NULL] or a block
    that overlaps no live block.  The candidate comes from [mallocs]; a
    candidate that is live (or none at all) is an exhausted allocator. *)
Definition malloc : M ptr :=
  λ st, let r := match mallocs st with
                 | Some a :: _ =>
                     if decide (heap st !! a = None) then Some a else NULL
                 | _ => NULL
                 end in
        let h := match r with
                 | Some a => <[a := junk]> (heap st)
                 | None => heap st
                 end in
        Ok (r, emit (EvMalloc r) (set_mallocs (tail (mallocs st)) (set_heap h st))).

(** [free(p)] *)
Definition free (p : addr) : M unit :=
  λ st, match heap st !! p with
        | Some _ => Ok (tt, emit (EvFree p) (set_heap (delete p (heap st)) st))
        | None => Fault
        end.

(** *** Serial console *)

Definition Serial_print (s : string) : M unit := modify (emit (EvPrint s)).
Definition Serial_print_int (n : Z) : M unit := modify (emit (EvPrintInt n)).
Definition Serial_println (s : string) : M unit := modify (emit (EvPrintln s)).
Definition Serial_println_int (n : Z) : M unit := modify (emit (EvPrintlnInt n)).

(** ** The connection registry *)

(** [void addNewClient(int socket)] *)
Definition addNewClient (socket : Z) : M unit :=
  client ← malloc;
  match client with
  | None =>
      Serial_println "Error! Couldn't allocate space to store a new client."
  | Some c =>
      hd ← get clients;
      store c (with_next hd) ;;
      store c (with_socket socket) ;;
      store c (with_client (Client socket)) ;;
      modify (set_clients (Some c)) ;;
      n ← get clientCount;
      modify (set_clientCount (n + 1))
  end.

(** The search loop of [removeClient]:
    [while (i != NULL && i->next != client) i = i->next;] *)
Fixpoint removeClient_scan (fuel : nat) (client : addr) (i : ptr) : M ptr :=
  match fuel with
  | O => out_of_fuel
  | S fuel' =>
      match i with
      | None => ret NULL
      | Some a =>
          n ← load a;
          if decide (next n = Some client) then ret (Some a)
          else removeClient_scan fuel' client (next n)
      end
  end.

(** [void removeClient(struct ClientList* client)].  The scan walks live
    blocks only, so a walk longer than the number of live blocks has entered
    a cycle: that is its budget. *)
Definition removeClient (client : ptr) : M unit :=
  match client with
  | None => ret tt
  | Some c =>
      let finish : M unit :=
        free c ;;
        n ← get clientCount;
        modify (set_clientCount (n - 1)) in
      hd ← get clients;
      if decide (hd = Some c) then
        n ← load c;
        modify (set_clients (next n)) ;;
        finish
      else
        budget ← get (λ st, S (size (heap st)));
        i ← removeClient_scan budget c hd;
        match i with
        | None => ret tt
        | Some a =>
            n ← load c;
            store a (with_next (next n)) ;;
            finish
        end
  end.

(** ** The collaborators of the server loop *)

(** The session behind the [client] field of the list node [i].  A handle
    the CC3000 knows no session for has no bytes, refuses writes and is not
    connected. *)
Definition session_of (i : addr) (st : State) : option Session :=
  n ← heap st !! i; net st !! client_socket (client n).

Definition with_rxbuf (v : list byte) (s : Session) : Session :=
  mkSession v (txlog s) (wfail s) (live s).

(** Modelled from the spec: [i->client.available()], the byte-available
    count of the session (the library class is not part of the sketch): the
    number of unread bytes. *)
Definition available (i : addr) : M Z :=
  n ← load i;
  call (λ st, let r := match net st !! client_socket (client n) with
                       | Some s => Z.of_nat (length (rxbuf s))
                       | None => 0%Z
                       end in
              (r, emit (EvAvailable i r) st)).

(** Modelled from the spec: [i->client.read()], the byte read of the
    session: takes the oldest unread byte.  The sketch reads only after
    [available] answered a positive count. *)
Definition read (i : addr) : M byte :=
  n ← load i;
  call (λ st, let sd := client_socket (client n) in
              match net st !! sd with
              | Some s =>
                  let ch := hd x00 (rxbuf s) in
                  (ch, emit (EvRead i ch)
                         (set_net (<[sd := with_rxbuf (tail (rxbuf s)) s]> (net st)) st))
              | None => (x00, emit (EvRead i x00) st)
              end).

(** Modelled from the spec: [i->client.write(ch)], the byte write of the
    session: answers the number of bytes written, 0 on failure. *)
Definition write (i : addr) (ch : byte) : M Z :=
  n ← load i;
  call (λ st, let sd := client_socket (client n) in
              match net st !! sd with
              | Some s =>
                  let failed := hd false (wfail s) in
                  let r := if failed then 0%Z else 1%Z in
                  let s' := mkSession (rxbuf s)
                                      (if failed then txlog s else txlog s ++ [ch])
                                      (tail (wfail s)) (live s) in
                  (r, emit (EvWrite i ch r) (set_net (<[sd := s']> (net st)) st))
              | None => (0%Z, emit (EvWrite i ch 0) st)
              end).

(** Modelled from the spec: [i->client.connected()], the liveness check of
    the session. *)
Definition connected (i : addr) : M bool :=
  n ← load i;
  call (λ st, let r := match net st !! client_socket (client n) with
                       | Some s => live s
                       | None => false
                       end in
              (r, emit (EvConnected i r) st)).

(** Modelled from the spec: the non-blocking [accept(sd, NULL, NULL)] of the
    firmware.  It answers a new socket handle, or a negative value when
    nothing is trying to connect or on an error; the answers come from
    [pending], and with none left nothing is trying to connect. *)
Definition accept (sd : Z) : M Z :=
  call (λ st, let r := hd (-1)%Z (pending st) in
              (r, emit (EvAccept sd r) (set_pending (tail (pending st)) st))).

(** ** The server loop *)

(** The drain phase of one connection:
    [while (i->client.available() > 0) { ch = read(); if (write(ch) == 0) ... }] *)
Fixpoint echoLoop_drain (fuel : nat) (i : addr) : M unit :=
  match fuel with
  | O => out_of_fuel
  | S fuel' =>
      n ← available i;
      if decide (n > 0)%Z then
        ch ← read i;
        r ← write i ch;
        (if decide (r = 0%Z)
         then Serial_println "Error writing character to client!"
         else ret tt);;
        echoLoop_drain fuel' i
      else ret tt
  end.

(** Every turn of the drain loop reads one byte, so the unread bytes of the
    session bound its turns. *)
Definition drain_budget (i : addr) (st : State) : nat :=
  match session_of i st with
  | Some s => S (length (rxbuf s))
  | None => 1
  end.

(** The pass over the connected clients:
    [while (i != NULL) { next = i->next; drain; liveness; i = next; }] *)
Fixpoint echoLoop_clients (fuel : nat) (i : ptr) : M unit :=
  match fuel with
  | O => out_of_fuel
  | S fuel' =>
      match i with
      | None => ret tt
      | Some a =>
          n ← load a;
          let next := next n in
          budget ← get (drain_budget a);
          echoLoop_drain budget a;;
          up ← connected a;
          (if negb up then
             n ← load a;
             Serial_print "Client on socket ";;
             Serial_print_int (socket n);;
             Serial_println " disconnected.";;
             removeClient (Some a)
           else ret tt);;
          echoLoop_clients fuel' next
      end
  end.

(** The accept phase: [if (clientCount < MAX_CLIENTS) { ... }] *)
Definition echoLoop_accept : M unit :=
  n ← get clientCount;
  if decide (n < MAX_CLIENTS)%Z then
    sd ← get listenSocket;
    newSocket ← accept sd;
    if decide (newSocket > -1)%Z then
      Serial_print "New client connected on socket ";;
      Serial_println_int newSocket;;
      addNewClient newSocket
    else ret tt
  else ret tt.

(** The first half of [echoLoop]: [ClientList* i = clients;] and the pass.
    The pass visits live blocks only, so the number of live blocks bounds
    its turns. *)
Definition echoLoop_pass : M unit :=
  i ← get clients;
  budget ← get (λ st, S (size (heap st)));
  echoLoop_clients budget i.

(** [void echoLoop()]: one tick of the server, the pass over the clients
    followed by the accept phase. *)
Definition echoLoop : M unit :=
  echoLoop_pass;;
  echoLoop_accept.

(** The registry as [echoSetup] leaves it:
    [clients = NULL; clientCount = 0;] *)
Definition initial (st : State) : Prop :=
  clients st = NULL ∧ clientCount st = 0%Z.

(** ** Traversal of the registry *)

(** The nodes reached from [p] by following [next] up to [NULL], in the
    order a traversal meets them; [None] when the walk leaves the live
    blocks or does not end within [fuel] steps. *)
Fixpoint reachable_from (fuel : nat) (h : gmap positive ClientList) (p : ptr)
  : option (list addr) :=
  match fuel with
  | O => None
  | S fuel' =>
      match p with
      | None => Some []
      | Some a =>
          n ← h !! a;
          l ← reachable_from fuel' h (next n);
          Some (a :: l)
      end
  end.

(** The nodes of the registry: those reachable from the head [clients]. *)
Definition nodes (st : State) : option (list addr) :=
  reachable_from (S (size (heap st))) (heap st) (clients st).

(** [is_seg h p l q]: following [next] from [p] passes through exactly the
    nodes [l], all live, and arrives at [q]. *)
Fixpoint is_seg (h : gmap positive ClientList) (p : ptr) (l : list addr) (q : ptr)
  : Prop :=
  match l with
  | [] => p = q
  | a :: l' => p = Some a ∧ ∃ n, h !! a = Some n ∧ is_seg h (next n) l' q
  end.

(** ** Vocabulary of the specifications *)

(** What a node carries besides its link. *)
Definition payload (n : ClientList) : Z * Adafruit_CC3000_Client :=
  (socket n, client n).

(** [st'] differs from [st] in the sessions and the trace at most. *)
Definition same_registry (st st' : State) : Prop :=
  heap st' = heap st ∧ clients st' = clients st ∧
  clientCount st' = clientCount st ∧ listenSocket st' = listenSocket st ∧
  pending st' = pending st ∧ mallocs st' = mallocs st.

(** The bytes a drain writes back: those of [rx] whose write does not
    fail, [wf] telling which writes fail. *)
Fixpoint echoed (rx : list byte) (wf : list bool) : list byte :=
  match rx with
  | [] => []
  | ch :: rx' =>
      (if hd false wf then [] else [ch]) ++ echoed rx' (tail wf)
  end.

(** The calls a drain of node [i] makes on unread bytes [rx]. *)
Fixpoint drain_events (i : addr) (rx : list byte) (wf : list bool) : list event :=
  match rx with
  | [] => [EvAvailable i 0]
  | ch :: rx' =>
      [EvAvailable i (Z.of_nat (length rx)); EvRead i ch;
       EvWrite i ch (if hd false wf then 0 else 1)%Z]
      ++ (if hd false wf
          then [EvPrintln "Error writing character to client!"] else [])
      ++ drain_events i rx' (tail wf)
  end.

(** The session a drain leaves behind. *)
Definition drained (s : Session) : Session :=
  mkSession [] (txlog s ++ echoed (rxbuf s) (wfail s))
            (drop (length (rxbuf s)) (wfail s)) (live s).

(** The answer of the liveness check of node [a] in [st]. *)
Definition alive (st : State) (a : addr) : bool :=
  match session_of a st with
  | Some s => live s
  | None => false
  end.

(** [a->socket] in [st]. *)
Definition socket_of (st : State) (a : addr) : Z :=
  match heap st !! a with
  | Some n => socket n
  | None => 0%Z
  end.

(** The nodes of [l] whose liveness check succeeds in [st]. *)
Definition kept (st : State) (l : list addr) : list addr :=
  filter (λ a, alive st a = true) l.

(** The events of a drain of node [i]: calls of [available], [read] and
    [write] on [i], and the warning of a failed write. *)
Definition is_drain_event (i : addr) (e : event) : bool :=
  match e with
  | EvAvailable j _ | EvRead j _ | EvWrite j _ _ => bool_decide (j = i)
  | EvPrintln s => bool_decide (s = "Error writing character to client!")
  | _ => false
  end.

(** What the pass does to a node found disconnected. *)
Definition removal_events (a : addr) (sd : Z) : list event :=
  [EvPrint "Client on socket "; EvPrintInt sd; EvPrintln " disconnected.";
   EvFree a].

(** The shape of the trace of a pass over the nodes [l]: node after node,
    the drain of the node, then its one liveness check, then its removal
    when the check failed. *)
Inductive pass_trace (up : addr → bool) (sd : addr → Z)
  : list addr → list event → Prop :=
| pass_done : pass_trace up sd [] []
| pass_visit a l d t :
    forallb (is_drain_event a) d = true →
    pass_trace up sd l t →
    pass_trace up sd (a :: l)
      (d ++ EvConnected a (up a)
         :: (if up a then [] else removal_events a (sd a)) ++ t).

(** The calls on client objects. *)
Definition is_client_call (e : event) : bool :=
  match e with
  | EvAvailable _ _ | EvRead _ _ | EvWrite _ _ _ | EvConnected _ _ => true
  | _ => false
  end.

(** The liveness checks of a trace, in order, with their answers. *)
Definition liveness_checks (t : list event) : list (addr * bool) :=
  omap (λ e, match e with EvConnected i r => Some (i, r) | _ => None end) t.

(** The [accept] calls of a trace, in order, with their answers. *)
Definition accept_calls (t : list event) : list Z :=
  omap (λ e, match e with EvAccept _ r => Some r | _ => None end) t.

(** The [write] calls of a trace, in order: node, byte and answer. *)
Definition write_calls (t : list event) : list (addr * byte * Z) :=
  omap (λ e, match e with EvWrite i ch r => Some (i, ch, r) | _ => None end) t.

(** ** Sequences of registry operations *)

Inductive registry_op :=
| Insert (socket : Z)
| Remove (client : ptr).

Definition apply_op (o : registry_op) : M unit :=
  match o with
  | Insert socket => addNewClient socket
  | Remove client => removeClient client
  end.

Fixpoint apply_ops (ops : list registry_op) : M unit :=
  match ops with
  | [] => ret tt
  | o :: ops' => apply_op o;; apply_ops ops'
  end.

(** The count is the number of nodes reachable from the head. *)
Definition size_ok (st : State) : Prop :=
  ∃ l, nodes st = Some l ∧ clientCount st = Z.of_nat (length l).

(** ** Runs of the server *)

(** Between two ticks the world moves (bytes arrive, sessions close,
    connections queue up, memory is handed out elsewhere); the registry is
    the server loop's alone. *)
Definition world_step (st st' : State) : Prop :=
  heap st' = heap st ∧ clients st' = clients st ∧
  clientCount st' = clientCount st ∧ listenSocket st' = listenSocket st.

(** The states the server passes through: [echoSetup] leaves an empty
    registry, then ticks of [echoLoop] alternate with moves of the world. *)
Inductive reachable : State → Prop :=
| reachable_initial st : initial st → reachable st
| reachable_world st st' : reachable st → world_step st st' → reachable st'
| reachable_tick st st' :
    reachable st → echoLoop st = Ok (tt, st') → reachable st'.

(** ** Example states *)

Definition node (sd : Z) (nx : ptr) : ClientList := mkClientList sd (Client sd) nx.

(** An empty registry, with two connections waiting and memory to spare. *)
Definition empty_server : State :=
  mkState ∅ NULL 0 0
          (<[4%Z := mkSession ["h"; "i"; x0a]%byte [] [] true]> ∅)
          [4; 5]%Z [Some 1%positive; Some 2%positive] [].

(** An empty registry and an exhausted allocator. *)
Definition out_of_memory : State :=
  mkState ∅ NULL 0 0 ∅ [4]%Z [NULL] [].

(** Three clients, inserted in the order 1, 2, 3 (sockets 4, 5, 6): client 1
    has sent ["hi\n"], client 2 has disconnected, client 3 has sent a byte
    whose echo will fail.  A fourth connection is waiting. *)
Definition three_clients : State :=
  mkState (<[3%positive := node 6 (Some 2%positive)]>
             (<[2%positive := node 5 (Some 1%positive)]>
                (<[1%positive := node 4 NULL]> ∅)))
          (Some 3%positive) 3 0
          (<[4%Z := mkSession ["h"; "i"; x0a]%byte [] [] true]>
             (<[5%Z := mkSession [] [] [] false]>
                (<[6%Z := mkSession ["x"]%byte [] [true] true]> ∅)))
          [7; 8]%Z [Some 9%positive] [].

(** ** Booting the echo server *)

Definition LISTEN_PORT : Z := 7.
Definition WLAN_SSID : string := "myNetwork".
Definition WLAN_PASS : string := "myPassword".

(** The characters the messages of the sketches escape. *)
Definition LF : ascii := "010"%char.
Definition CR : ascii := "013"%char.
Definition CRLF : string := String CR (String LF "").

(** The calls the sketch makes while booting, on the Arduino core and on
    the CC3000 driver, with the arguments the sketch chooses.  The constant
    arguments taken from the driver's headers ([AF_INET], [SOCK_STREAM],
    [IPPROTO_TCP] of [socket]; [SOL_SOCKET], [SOCKOPT_ACCEPT_NONBLOCK],
    [SOCK_ON] of [setsockopt]; [WLAN_SECURITY] of [connectToAP]) are part
    of the call's name; [CallBind] carries the address and the port before
    [htonl] and [htons]. *)
Inductive boot_call :=
| CallSerialBegin (baud : Z)
| CallGetFreeRam
| CallBegin
| CallConnectToAP (ssid pass : string)
| CallCheckDHCP
| CallDelay (ms : Z)
| CallGetIPAddress
| CallPrintIPdotsRev (ip : Z)
| CallNetappTimeoutValues (dhcp arp keepalive inactivity : Z)
| CallSocket
| CallSetsockopt (sd : Z)
| CallBind (sd addr port : Z)
| CallListen (sd backlog : Z).

(** What the board and the firmware answer to the calls made once. *)
Record Firmware := mkFirmware {
  fw_getFreeRam : Z;
  fw_begin : bool;
  fw_connectToAP : bool;
  fw_netapp_timeout_values : Z;
  fw_socket : Z;
  fw_setsockopt : Z;
  fw_bind : Z;
  fw_listen : Z
}.

(** The booting board: the state of the sketch, the answers of the
    firmware, and the calls made so far, oldest first.  The answers of the
    polled calls come in lists, one answer per call: [dhcp] for
    [checkDHCP], and once it is used up DHCP never completes; [addresses]
    for [getIPAddress], which answers the five addresses or fails, and once
    it is used up fails for ever. *)
Record Boot := mkBoot {
  sketch : State;
  firmware : Firmware;
  dhcp : list bool;
  addresses : list (option (Z * Z * Z * Z * Z));
  calls : list boot_call
}.

(** How a boot function ends: it returns, it spins in the [while(1);] that
    follows a fatal error, or it is still polling when the answers are used
    up, and polls forever. *)
Inductive outcome :=
| Done (b : Boot)
| Halted (b : Boot)
| Polling (b : Boot).

Definition and_then (o : outcome) (k : Boot → outcome) : outcome :=
  match o with
  | Done b => k b
  | _ => o
  end.

Definition set_listenSocket (sd : Z) (st : State) : State :=
  mkState (heap st) (clients st) (clientCount st) sd
          (net st) (pending st) (mallocs st) (trace st).

Definition on_sketch (f : State → State) (b : Boot) : Boot :=
  mkBoot (f (sketch b)) (firmware b) (dhcp b) (addresses b) (calls b).
Definition printed (e : event) (b : Boot) : Boot := on_sketch (emit e) b.
Definition called (c : boot_call) (b : Boot) : Boot :=
  mkBoot (sketch b) (firmware b) (dhcp b) (addresses b) (calls b ++ [c]).

(** [cc3000.checkDHCP()] *)
Definition checkDHCP (b : Boot) : bool * Boot :=
  (hd false (dhcp b),
   called CallCheckDHCP
     (mkBoot (sketch b) (firmware b) (tail (dhcp b)) (addresses b) (calls b))).

(** [cc3000.getIPAddress(&ipAddress, &netmask, &gateway, &dhcpserv, &dnsserv)] *)
Definition getIPAddress (b : Boot) : option (Z * Z * Z * Z * Z) * Boot :=
  (hd None (addresses b),
   called CallGetIPAddress
     (mkBoot (sketch b) (firmware b) (dhcp b) (tail (addresses b)) (calls b))).

(** [bool displayConnectionDetails(void)] *)
Definition displayConnectionDetails (b : Boot) : bool * Boot :=
  let (r, b) := getIPAddress b in
  match r with
  | None =>
      (false,
       printed (EvPrintln (String.append "Unable to retrieve the IP Address!" CRLF)) b)
  | Some (ipAddress, netmask, gateway, dhcpserv, dnsserv) =>
      let b := printed (EvPrint (String LF "IP Addr: ")) b in
      let b := called (CallPrintIPdotsRev ipAddress) b in
      let b := printed (EvPrint (String LF "Netmask: ")) b in
      let b := called (CallPrintIPdotsRev netmask) b in
      let b := printed (EvPrint (String LF "Gateway: ")) b in
      let b := called (CallPrintIPdotsRev gateway) b in
      let b := printed (EvPrint (String LF "DHCPsrv: ")) b in
      let b := called (CallPrintIPdotsRev dhcpserv) b in
      let b := printed (EvPrint (String LF "DNSserv: ")) b in
      let b := called (CallPrintIPdotsRev dnsserv) b in
      let b := printed (EvPrintln "") b in
      (true, b)
  end.

(** [void echoSetup()] *)
Definition echoSetup (b : Boot) : outcome :=
  let fw := firmware b in
  let b := called (CallNetappTimeoutValues 14400 3600 30 0) b in
  if decide (fw_netapp_timeout_values fw ≠ 0%Z) then
    Halted (printed (EvPrintln "Error setting inactivity timeout!") b)
  else
  let b := called CallSocket b in
  let b := on_sketch (set_listenSocket (fw_socket fw)) b in
  if decide (listenSocket (sketch b) < 0)%Z then
    Halted (printed (EvPrintln "Couldn't create listening socket!") b)
  else
  let b := called (CallSetsockopt (listenSocket (sketch b))) b in
  if decide (fw_setsockopt fw < 0)%Z then
    Halted (printed (EvPrintln "Couldn't set socket as non-blocking!") b)
  else
  let b := called (CallBind (listenSocket (sketch b)) 0 LISTEN_PORT) b in
  if decide (fw_bind fw < 0)%Z then
    Halted (printed (EvPrintln "Error binding listen socket to address!") b)
  else
  let b := called (CallListen (listenSocket (sketch b)) 0) b in
  if decide (fw_listen fw < 0)%Z then
    Halted (printed (EvPrintln "Error opening socket for listening!") b)
  else
  let b := on_sketch (set_clients NULL) b in
  let b := on_sketch (set_clientCount 0) b in
  Done (printed (EvPrintln "Listening for connections...") b).

(** [while (!cc3000.checkDHCP()) { delay(100); }] *)
Fixpoint setup_wait_dhcp (fuel : nat) (b : Boot) : outcome :=
  match fuel with
  | O => Polling b
  | S fuel' =>
      let (r, b) := checkDHCP b in
      if negb r then setup_wait_dhcp fuel' (called (CallDelay 100) b)
      else Done b
  end.

(** [while (! displayConnectionDetails()) { delay(1000); }] *)
Fixpoint setup_wait_details (fuel : nat) (b : Boot) : outcome :=
  match fuel with
  | O => Polling b
  | S fuel' =>
      let (r, b) := displayConnectionDetails b in
      if negb r then setup_wait_details fuel' (called (CallDelay 1000) b)
      else Done b
  end.

(** [void setup(void)] of the echo server.  A polling loop whose answers
    are used up polls forever: the number of answers is its budget. *)
Definition setup (b : Boot) : outcome :=
  let b := called (CallSerialBegin 115200) b in
  let b := printed (EvPrintln (String.append "Hello, CC3000!" (String LF ""))) b in
  let b := printed (EvPrint "Free RAM: ") b in
  let b := called CallGetFreeRam b in
  let b := printed (EvPrintlnInt (fw_getFreeRam (firmware b))) b in
  let b := printed (EvPrintln (String LF "Initializing...")) b in
  let b := called CallBegin b in
  if negb (fw_begin (firmware b)) then
    Halted (printed (EvPrintln "Couldn't begin()! Check your wiring?") b)
  else
  let b := called (CallConnectToAP WLAN_SSID WLAN_PASS) b in
  if negb (fw_connectToAP (firmware b)) then
    Halted (printed (EvPrintln "Failed!") b)
  else
  let b := printed (EvPrintln "Connected!") b in
  let b := printed (EvPrintln "Request DHCP") b in
  and_then (setup_wait_dhcp (S (length (dhcp b))) b) (λ b,
  and_then (setup_wait_details (S (length (addresses b))) b) (λ b,
  echoSetup b)).

(** [void loop(void)] of the echo server. *)
Definition loop : M unit := echoLoop.

(** ** The firmware version of the SmartConfig sketch *)

(** [uint8_t] and [uint16_t] values. *)
Definition uint8 (z : Z) : Z := z mod 2 ^ 8.
Definition uint16 (z : Z) : Z := z mod 2 ^ 16.

(** [uint16_t checkFirmwareVersion(void)], in the build without
    [CC3000_TINY_DRIVER].  [r] is what [cc3000.getFirmwareVersion(&major,
    &minor)] answers: the two numbers, or a failure. *)
Definition checkFirmwareVersion (r : option (Z * Z)) : M Z :=
  match r with
  | None =>
      Serial_println (String.append "Unable to retrieve the firmware version!" CRLF);;
      ret 0%Z
  | Some (major, minor) =>
      let major := uint8 major in
      let minor := uint8 minor in
      Serial_print "Firmware V. : ";;
      Serial_print_int major;;
      Serial_print ".";;
      Serial_println_int minor;;
      let version := uint16 major in
      let version := uint16 (Z.shiftl version 8) in
      let version := uint16 (Z.lor version minor) in
      ret version
  end.

(** A board on which everything works: DHCP completes on the third poll,
    the address is read on the second try. *)
Definition good_board : Boot :=
  mkBoot (mkState ∅ (Some 5%positive) 7 0 ∅ [] [] [])
         (mkFirmware 1200 true true 0 2 0 0 0)
         [false; false; true] [None; Some (1, 2, 3, 4, 5)%Z] [].

(** A board whose firmware refuses to bind the listening socket. *)
Definition no_bind_board : Boot :=
  mkBoot (mkState ∅ NULL 0 0 ∅ [] [] [])
         (mkFirmware 1200 true true 0 2 0 (-1) 0)
         [true] [Some (1, 2, 3, 4, 5)%Z] [].

(** A board on which DHCP never completes. *)
Definition no_dhcp_board : Boot :=
  mkBoot (mkState ∅ NULL 0 0 ∅ [] [] [])
         (mkFirmware 1200 true true 0 2 0 0 0)
         [false; false] [Some (1, 2, 3, 4, 5)%Z] [].

(** The board an outcome leaves. *)
Definition boot_of (o : outcome) : Boot :=
  match o with
  | Done b | Halted b | Polling b => b
  end.

(** The calls [echoSetup] makes when nothing fails, [sd] being the
    listening socket. *)
Definition echoSetup_calls (sd : Z) : list boot_call :=
  [CallNetappTimeoutValues 14400 3600 30 0; CallSocket; CallSetsockopt sd;
   CallBind sd 0 LISTEN_PORT; CallListen sd 0].

(** The firmware lets [echoSetup] through. *)
Definition firmware_listens (fw : Firmware) : Prop :=
  fw_netapp_timeout_values fw = 0%Z ∧ (0 ≤ fw_socket fw)%Z ∧
  (0 ≤ fw_setsockopt fw)%Z ∧ (0 ≤ fw_bind fw)%Z ∧ (0 ≤ fw_listen fw)%Z.

(** ** Vocabulary of the further properties *)

(** The effect of the drain of node [a] on the sessions [w], the nodes
    being those of the heap [h]: the session of the node's client object is
    drained, the others are left alone. *)
Definition drain_in (h : gmap positive ClientList) (w : gmap Z Session) (a : addr)
  : gmap Z Session :=
  match h !! a with
  | Some n =>
      match w !! client_socket (client n) with
      | Some s => <[client_socket (client n) := drained s]> w
      | None => w
      end
  | None => w
  end.

(** The socket handles the client objects of the nodes [l] wrap. *)
Definition served (st : State) (l : list addr) : list Z :=
  omap (λ a, (λ n, client_socket (client n)) <$> heap st !! a) l.

(** The calls the drain of node [a] makes when the sessions are [w]: those
    of [drain_events] on the unread bytes of its session, a single
    [available] answering 0 when the socket has no session. *)
Definition drain_calls (h : gmap positive ClientList) (w : gmap Z Session)
    (a : addr) : list event :=
  match h !! a with
  | Some n =>
      match w !! client_socket (client n) with
      | Some s => drain_events a (rxbuf s) (wfail s)
      | None => [EvAvailable a 0]
      end
  | None => []
  end.

(** The events of a pass over the nodes [l] of the registry of [st], the
    sessions being [w] when the pass reaches [l]: for each node in turn its
    drain, its liveness check and, when that fails, its removal. *)
Fixpoint pass_events (st : State) (w : gmap Z Session) (l : list addr)
  : list event :=
  match l with
  | [] => []
  | a :: l' =>
      drain_calls (heap st) w a
      ++ EvConnected a (alive st a)
      :: (if alive st a then [] else removal_events a (socket_of st a))
      ++ pass_events st (drain_in (heap st) w a) l'
  end.

(** The registry owns its nodes: the live blocks are the nodes of the chain,
    and the count is their number. *)
Definition owned (st : State) : Prop :=
  ∃ l, nodes st = Some l ∧ (∀ b, is_Some (heap st !! b) ↔ b ∈ l) ∧
       clientCount st = Z.of_nat (length l).

(** The states a server started in [st0] passes through. *)
Inductive run_from (st0 : State) : State → Prop :=
| run_start : run_from st0 st0
| run_world st st' : run_from st0 st → world_step st st' → run_from st0 st'
| run_tick st st' :
    run_from st0 st → echoLoop st = Ok (tt, st') → run_from st0 st'.

(** The state a computation leaves when it returns. *)
Definition state_after (m : M unit) (st : State) : State :=
  match m st with
  | Ok (_, st') => st'
  | _ => st
  end.

(** A server that has just booted, with five connections on their way:
    socket 4 has sent ["hi"], socket 5 has already hung up, sockets 6, 7 and
    8 are connected and silent.  The allocator will hand out the blocks 1,
    2, 3, then 2 again, then 4. *)
Definition lobby : State :=
  mkState ∅ NULL 0 0
          (<[4%Z := mkSession ["h"; "i"]%byte [] [] true]>
             (<[5%Z := mkSession [] [] [] false]>
                (<[6%Z := mkSession [] [] [] true]>
                   (<[7%Z := mkSession [] [] [] true]>
                      (<[8%Z := mkSession [] [] [] true]> ∅)))))
          [4; 5; 6; 7; 8]%Z
          [Some 1%positive; Some 2%positive; Some 3%positive; Some 2%positive;
           Some 4%positive]
          [].

(** The lobby after one tick, two, three (clients accepted on sockets 4, 5
    and 6, the one on socket 5 removed again) and four (the registry is
    full, a client on socket 7 sits in the block the removed one left). *)
Definition lobby1 : State := state_after echoLoop lobby.
Definition lobby2 : State := state_after echoLoop lobby1.
Definition lobby3 : State := state_after echoLoop lobby2.
Definition lobby4 : State := state_after echoLoop lobby3.

(** Two connected clients with nothing to say, nobody waiting. *)
Definition idle_server : State :=
  mkState (<[2%positive := node 5 (Some 1%positive)]>
             (<[1%positive := node 4 NULL]> ∅))
          (Some 2%positive) 2 0
          (<[4%Z := mkSession [] ["h"]%byte [] true]>
             (<[5%Z := mkSession [] [] [] true]> ∅))
          [] [Some 9%positive] [].

(** ** Proof automation *)

Ltac munfold :=
  unfold mbind, M_bind, bind, ret, get, modify, call, load, store, free,
    Serial_print, Serial_print_int, Serial_println, Serial_println_int in *.

(** * Proofs *)

(** ** Linked-list segments *)

Section segments.
Implicit Types (h : gmap positive ClientList) (p q : ptr) (l : list addr).

Lemma is_seg_app h p l1 l2 q :
  is_seg h p (l1 ++ l2) q ↔ ∃ r, is_seg h p l1 r ∧ is_seg h r l2 q.
Proof.
  revert p. induction l1 as [|a l1 IH]; intros p; simpl.
  - split; [eauto | by intros (r & -> & ?)].
  - split.
    + intros (-> & n & Hn & Hs). apply IH in Hs as (r & ? & ?). eauto 10.
    + intros (r & (-> & n & Hn & Hs) & H2). split; [done|].
      exists n. split; [done|]. apply IH. eauto.
Qed.

Lemma is_seg_ext h h' p l q :
  is_seg h p l q → (∀ a, a ∈ l → h' !! a = h !! a) → is_seg h' p l q.
Proof.
  revert p. induction l as [|a l IH]; intros p; simpl; [done|].
  intros (-> & n & Hn & Hs) Hext. split; [done|]. exists n. split.
  - rewrite Hext; [done | left].
  - apply IH; [done|]. intros b Hb. apply Hext. by right.
Qed.

Lemma is_seg_live h p l q a : is_seg h p l q → a ∈ l → is_Some (h !! a).
Proof.
  revert p. induction l as [|b l IH]; intros p; simpl.
  - intros _ Hin. by apply elem_of_nil in Hin.
  - intros (-> & n & Hn & Hs) [->|Hin]%elem_of_cons; eauto.
Qed.

Lemma is_chain_inj h p l1 l2 :
  is_seg h p l1 NULL → is_seg h p l2 NULL → l1 = l2.
Proof.
  revert p l2. induction l1 as [|a l1 IH]; intros p [|b l2]; simpl.
  - done.
  - intros -> (? & _). done.
  - intros (-> & _) ?. done.
  - intros (-> & n & Hn & Hs) ([= <-] & n' & Hn' & Hs').
    rewrite Hn in Hn'. injection Hn' as <-. f_equal. eauto.
Qed.

Lemma is_chain_NoDup h p l : is_seg h p l NULL → NoDup l.
Proof.
  revert p. induction l as [|a l IH]; intros p; simpl.
  - constructor.
  - intros (-> & n & Hn & Hs). constructor; [|by eapply IH].
    intros (k1 & k2 & ->)%list_elem_of_split.
    pose proof Hs as Hs'. apply is_seg_app in Hs' as (r & _ & Hr).
    pose proof Hr as (-> & _).
    assert (is_seg h (Some a) (a :: k1 ++ a :: k2) NULL) as Hfull.
    { simpl. eauto. }
    pose proof (is_chain_inj _ _ _ _ Hr Hfull) as Heq.
    apply (f_equal length) in Heq. simpl in Heq.
    rewrite length_app in Heq. simpl in Heq. lia.
Qed.

Lemma live_nodes_bound h l :
  NoDup l → (∀ a, a ∈ l → is_Some (h !! a)) → length l ≤ size h.
Proof.
  intros Hnd Hlive. rewrite <- size_dom. unfold size, set_size. simpl.
  apply submseteq_length, NoDup_submseteq; [done|].
  intros a Ha. apply elem_of_elements, elem_of_dom. auto.
Qed.

Lemma is_chain_bound h p l : is_seg h p l NULL → length l ≤ size h.
Proof.
  intros Hs. apply live_nodes_bound.
  - by eapply is_chain_NoDup.
  - intros a. by eapply is_seg_live.
Qed.

Lemma reachable_from_chain fuel h p l :
  reachable_from fuel h p = Some l → is_seg h p l NULL.
Proof.
  revert p l. induction fuel as [|fuel IH]; intros p l; simpl; [done|].
  destruct p as [a|]; [|by intros [= <-]].
  destruct (h !! a) as [n|] eqn:Hn; simpl; [|done].
  destruct (reachable_from fuel h (next n)) as [l'|] eqn:Hl; simpl; [|done].
  intros [= <-]. simpl. eauto.
Qed.

Lemma chain_reachable_from fuel h p l :
  is_seg h p l NULL → length l < fuel → reachable_from fuel h p = Some l.
Proof.
  revert p fuel. induction l as [|a l IH]; intros p fuel; simpl.
  - intros -> Hf. destruct fuel; [lia | done].
  - intros (-> & n & Hn & Hs) Hf. destruct fuel as [|fuel]; [lia|].
    simpl. rewrite Hn. simpl. rewrite (IH _ fuel Hs); [done | lia].
Qed.

Lemma nodes_chain st l :
  nodes st = Some l ↔ is_seg (heap st) (clients st) l NULL.
Proof.
  unfold nodes. split; [apply reachable_from_chain|].
  intros Hs. apply chain_reachable_from; [done|].
  apply is_chain_bound in Hs. lia.
Qed.
End segments.

(** ** Registry operations *)

Section registry.
Implicit Types (st : State) (l : list addr) (c : addr).

Lemma malloc_inv st r st1 :
  malloc st = Ok (r, st1) →
  clients st1 = clients st ∧ clientCount st1 = clientCount st ∧
  listenSocket st1 = listenSocket st ∧ net st1 = net st ∧
  pending st1 = pending st ∧ mallocs st1 = tail (mallocs st) ∧
  trace st1 = trace st ++ [EvMalloc r] ∧
  match r with
  | Some c => heap st !! c = None ∧ heap st1 = <[c := junk]> (heap st)
  | None => heap st1 = heap st
  end.
Proof.
  unfold malloc. intros [= <- <-]. simpl. repeat split.
  destruct (mallocs st) as [|[a|] ?]; try done.
  case_decide; done.
Qed.

(** Allocation failure: nothing of the registry changes. *)
Lemma addNewClient_null socket st st1 :
  malloc st = Ok (NULL, st1) →
  addNewClient socket st =
    Ok (tt, emit (EvPrintln "Error! Couldn't allocate space to store a new client.") st1).
Proof. intros Hm. unfold addNewClient. munfold. by rewrite Hm. Qed.

(** Allocation success: the new node becomes the head. *)
Lemma addNewClient_some socket st st1 c :
  malloc st = Ok (Some c, st1) →
  ∃ st', addNewClient socket st = Ok (tt, st') ∧
    heap st' = <[c := mkClientList socket (Client socket) (clients st)]> (heap st) ∧
    clients st' = Some c ∧ clientCount st' = (clientCount st + 1)%Z ∧
    listenSocket st' = listenSocket st ∧ net st' = net st ∧
    pending st' = pending st ∧ mallocs st' = tail (mallocs st) ∧
    trace st' = trace st ++ [EvMalloc (Some c)].
Proof.
  intros Hm. pose proof (malloc_inv _ _ _ Hm) as
    (Hc & Hn & Hl & Hw & Hp & Hb & Ht & Hfresh & Hh).
  unfold addNewClient. munfold. rewrite Hm. simpl.
  rewrite Hh. rewrite lookup_insert_eq. simpl.
  rewrite lookup_insert_eq. simpl. rewrite lookup_insert_eq. simpl.
  eexists. split; [done|]. simpl.
  rewrite !insert_insert_eq. unfold with_client, with_socket, with_next, junk.
  simpl. rewrite Hc, Hn, Hl, Hw, Hp, Hb, Ht. done.
Qed.

Lemma addNewClient_nodes socket st st1 c l :
  malloc st = Ok (Some c, st1) → nodes st = Some l →
  ∃ st', addNewClient socket st = Ok (tt, st') ∧ nodes st' = Some (c :: l).
Proof.
  intros Hm Hl. destruct (addNewClient_some socket _ _ _ Hm)
    as (st' & Hrun & Hh & Hc & _).
  exists st'. split; [done|]. apply nodes_chain. rewrite Hh, Hc.
  apply malloc_inv in Hm as (_ & _ & _ & _ & _ & _ & _ & Hfresh & _).
  simpl. split; [done|]. eexists. split; [apply lookup_insert_eq|]. simpl.
  apply nodes_chain in Hl. eapply is_seg_ext; [done|].
  intros a Ha. apply lookup_insert_ne. intros <-.
  eapply is_seg_live in Ha as [? Ha]; [|done]. congruence.
Qed.

(** The scan of [removeClient] on a chain that does not hold [c]. *)
Lemma removeClient_scan_absent st c l : ∀ fuel p,
  is_seg (heap st) p l NULL → c ∉ l → length l < fuel →
  removeClient_scan fuel c p st = Ok (NULL, st).
Proof.
  induction l as [|a l IH]; intros fuel p; simpl.
  - intros -> _ Hf. destruct fuel; [lia | done].
  - intros (-> & n & Hn & Hs) Hc Hf. destruct fuel as [|fuel]; [lia|].
    simpl. munfold. rewrite Hn. case_decide as Hnx.
    + rewrite Hnx in Hs. destruct l as [|b l]; [done|].
      destruct Hs as ([= <-] & _). set_solver.
    + apply IH; [done | set_solver | lia].
Qed.

(** The scan of [removeClient] stops on the node before [c]. *)
Lemma removeClient_scan_present st c l a : ∀ fuel p,
  is_seg (heap st) p (l ++ [a]) (Some c) → c ∉ l ++ [a] → length l < fuel →
  removeClient_scan fuel c p st = Ok (Some a, st).
Proof.
  induction l as [|b l IH]; intros fuel p; simpl.
  - intros (-> & n & Hn & Hs) _ Hf. destruct fuel; [lia|].
    simpl. munfold. rewrite Hn. by rewrite decide_True.
  - intros (-> & n & Hn & Hs) Hc Hf. destruct fuel as [|fuel]; [lia|].
    simpl. munfold. rewrite Hn. case_decide as Hnx.
    + rewrite Hnx in Hs. destruct l as [|b' l]; simpl in Hs.
      * destruct Hs as ([= <-] & _). set_solver.
      * destruct Hs as ([= <-] & _). set_solver.
    + apply IH; [done | | lia]. intros ?. apply Hc. by right.
Qed.
Lemma removeClient_absent st l c :
  nodes st = Some l → c ∉ l → removeClient (Some c) st = Ok (tt, st).
Proof.
  intros Hl%nodes_chain Hc. unfold removeClient. munfold.
  case_decide as Hhd.
  - rewrite Hhd in Hl. destruct l as [|b l]; [done|].
    destruct Hl as ([= <-] & _). set_solver.
  - rewrite (removeClient_scan_absent st c l); [done..|].
    apply is_chain_bound in Hl. lia.
Qed.

Lemma removeClient_present st l1 c l2 :
  nodes st = Some (l1 ++ c :: l2) →
  ∃ st', removeClient (Some c) st = Ok (tt, st') ∧
    nodes st' = Some (l1 ++ l2) ∧
    clientCount st' = (clientCount st - 1)%Z ∧
    heap st' !! c = None ∧
    (∀ b, b ≠ c → b ∉ l1 → heap st' !! b = heap st !! b) ∧
    (∀ b, b ≠ c → payload <$> heap st' !! b = payload <$> heap st !! b) ∧
    listenSocket st' = listenSocket st ∧ net st' = net st ∧
    pending st' = pending st ∧ mallocs st' = mallocs st ∧
    trace st' = trace st ++ [EvFree c].
Proof.
  intros Hl%nodes_chain.
  pose proof (is_chain_NoDup _ _ _ Hl) as Hnd.
  pose proof (is_chain_bound _ _ _ Hl) as Hlen.
  apply NoDup_app in Hnd as (Hnd1 & Hdisj & [Hc2 Hnd2]%NoDup_cons).
  assert (c ∉ l1) as Hc1 by (intros ?; eapply Hdisj; [done | left]).
  apply is_seg_app in Hl as (r & Hs1 & -> & nc & Hnc & Hs2).
  unfold removeClient. munfold.
  destruct l1 as [|a0 l1' _] using rev_ind.
  - simpl in Hs1. rewrite Hs1, decide_True by done. rewrite Hnc. simpl.
    rewrite Hnc. eexists. split; [done|]. simpl.
    split; [|repeat split].
    + apply nodes_chain. simpl. eapply is_seg_ext; [done|].
      intros b Hb. apply lookup_delete_ne. by intros <-.
    + apply lookup_delete_eq.
    + intros b Hb _. by apply lookup_delete_ne.
    + intros b Hb. by rewrite lookup_delete_ne.
  - rename a0 into a.
    assert (a ≠ c) as Hac by (intros ->; set_solver).
    assert (clients st ≠ Some c) as Hhd.
    { intros Hhd. rewrite Hhd in Hs1. destruct l1'; simpl in Hs1;
        destruct Hs1 as ([= <-] & _); set_solver. }
    rewrite decide_False by done.
    rewrite (removeClient_scan_present st c l1' a); [|done|done|].
    2:{ rewrite !length_app in Hlen. simpl in Hlen. lia. }
    rewrite Hnc.
    apply is_seg_app in Hs1 as (r & Hs1 & -> & na & Hna & Hnx).
    simpl in Hnx. rewrite Hna. simpl.
    rewrite lookup_insert_ne, Hnc by done.
    eexists. split; [done|]. simpl.
    apply NoDup_app in Hnd1 as (_ & Hdisj1 & _).
    assert (a ∉ l1') as Ha1 by (intros ?; eapply Hdisj1; [done | left]).
    assert (a ∉ l2) as Ha2.
    { intros ?. eapply Hdisj; [apply elem_of_app; right; left | by right]. }
    split; [|repeat split].
    + apply nodes_chain. simpl. rewrite <- app_assoc. apply is_seg_app.
      exists (Some a). split.
      * eapply is_seg_ext; [done|]. intros b Hb.
        rewrite lookup_delete_ne, lookup_insert_ne; [done|..];
          intros <-; set_solver.
      * simpl. split; [done|]. eexists. split.
        { rewrite lookup_delete_ne, lookup_insert_eq; done. }
        simpl. eapply is_seg_ext; [done|]. intros b Hb.
        rewrite lookup_delete_ne, lookup_insert_ne; [done|..];
          intros <-; set_solver.
    + apply lookup_delete_eq.
    + intros b Hb Hb1. rewrite lookup_delete_ne, lookup_insert_ne; [done|..].
      * intros <-. set_solver.
      * done.
    + intros b Hb. rewrite lookup_delete_ne by done.
      destruct (decide (a = b)) as [<-|].
      * by rewrite lookup_insert_eq, Hna.
      * by rewrite lookup_insert_ne.
Qed.
End registry.

(** ** The drain phase *)

Section drain.
Implicit Types (st : State) (s : Session) (i : addr).

Lemma bind_Ok {A B} (m : M A) (k : A → M B) st a st1 :
  m st = Ok (a, st1) → (m ≫= k) st = k a st1.
Proof. unfold mbind, M_bind, bind. by intros ->. Qed.

Lemma available_session i n s st :
  heap st !! i = Some n → net st !! client_socket (client n) = Some s →
  available i st =
    Ok (Z.of_nat (length (rxbuf s)),
        emit (EvAvailable i (Z.of_nat (length (rxbuf s)))) st).
Proof. intros Hn Hs. unfold available. munfold. by rewrite Hn, Hs. Qed.

Lemma read_session i n s st :
  heap st !! i = Some n → net st !! client_socket (client n) = Some s →
  read i st =
    Ok (hd x00 (rxbuf s),
        emit (EvRead i (hd x00 (rxbuf s)))
          (set_net (<[client_socket (client n) :=
                        with_rxbuf (tail (rxbuf s)) s]> (net st)) st)).
Proof. intros Hn Hs. unfold read. munfold. by rewrite Hn, Hs. Qed.

Lemma write_session i n s ch st :
  heap st !! i = Some n → net st !! client_socket (client n) = Some s →
  write i ch st =
    Ok ((if hd false (wfail s) then 0 else 1)%Z,
        emit (EvWrite i ch (if hd false (wfail s) then 0 else 1)%Z)
          (set_net (<[client_socket (client n) :=
                        mkSession (rxbuf s)
                          (if hd false (wfail s) then txlog s
                           else txlog s ++ [ch])
                          (tail (wfail s)) (live s)]> (net st)) st)).
Proof. intros Hn Hs. unfold write. munfold. by rewrite Hn, Hs. Qed.

Lemma echoLoop_drain_S fuel i :
  echoLoop_drain (S fuel) i =
    (n ← available i;
     if decide (n > 0)%Z then
       ch ← read i;
       r ← write i ch;
       (if decide (r = 0%Z)
        then Serial_println "Error writing character to client!"
        else ret tt);;
       echoLoop_drain fuel i
     else ret tt).
Proof. done. Qed.

Lemma echoLoop_drain_session i n : ∀ rx s st fuel,
  heap st !! i = Some n →
  net st !! client_socket (client n) = Some s →
  rxbuf s = rx → length rx < fuel →
  ∃ st', echoLoop_drain fuel i st = Ok (tt, st') ∧
    same_registry st st' ∧
    net st' = <[client_socket (client n) := drained s]> (net st) ∧
    trace st' = trace st ++ drain_events i rx (wfail s).
Proof.
  induction rx as [|ch rx IH]; intros s st fuel Hn Hs Hrx Hf;
    (destruct fuel as [|fuel]; [simpl in Hf; lia|]);
    rewrite echoLoop_drain_S;
    rewrite (bind_Ok _ _ _ _ _ (available_session _ _ _ _ Hn Hs)), Hrx.
  - rewrite decide_False by (simpl; lia).
    eexists. split; [done|]. simpl. repeat split.
    rewrite insert_id; [done|]. rewrite Hs. f_equal.
    destruct s as [rx tx wf lv]. simpl in *. subst rx.
    unfold drained. simpl. by rewrite app_nil_r.
  - rewrite decide_True by (simpl; lia).
    erewrite bind_Ok by (by eapply read_session). rewrite Hrx.
    erewrite bind_Ok
      by (eapply write_session; simpl; [done | apply lookup_insert_eq]).
    simpl. rewrite insert_insert_eq.
    set (s2 := mkSession rx (if hd false (wfail s) then txlog s
                             else txlog s ++ [ch]) (tail (wfail s)) (live s)).
    assert (drained s2 = drained s) as Hd.
    { unfold drained, s2. simpl. rewrite Hrx. simpl. f_equal.
      - destruct (hd false (wfail s)); simpl; [reflexivity|].
        rewrite <- app_assoc. reflexivity.
      - destruct (wfail s); simpl; [by rewrite drop_nil | reflexivity]. }
    match goal with |- ∃ _, (?m ≫= _) ?st = _ ∧ _ =>
      assert (∃ st1, m st = Ok (tt, st1) ∧ heap st1 = heap st ∧
                same_registry st st1 ∧ net st1 = net st ∧
                trace st1 = trace st ++
                  (if hd false (wfail s)
                   then [EvPrintln "Error writing character to client!"]
                   else [])) as (st1 & Hpr & Hh1 & Hsame1 & Hnet1 & Htr1)
    end.
    { destruct (hd false (wfail s)); simpl.
      - eexists. split; [done|]. done.
      - eexists. split; [done|]. simpl. rewrite app_nil_r. done. }
    rewrite (bind_Ok _ _ _ _ _ Hpr).
    destruct (IH s2 st1 fuel) as (st' & Hrun & Hsame & Hnet & Htr).
    { by rewrite Hh1. }
    { rewrite Hnet1. simpl. apply lookup_insert_eq. }
    { done. }
    { simpl in Hf. lia. }
    exists st'. split; [done|].
    destruct Hsame as (? & ? & ? & ? & ? & ?).
    destruct Hsame1 as (? & ? & ? & ? & ? & ?). simpl in *.
    split; [repeat split; congruence|]. split.
    + by rewrite Hnet, Hnet1, insert_insert_eq, Hd.
    + rewrite Htr, Htr1. simpl. by rewrite <- !app_assoc.
Qed.

Lemma echoLoop_drain_no_session i n st fuel :
  heap st !! i = Some n →
  net st !! client_socket (client n) = None →
  0 < fuel →
  ∃ st', echoLoop_drain fuel i st = Ok (tt, st') ∧
    same_registry st st' ∧ net st' = net st ∧
    trace st' = trace st ++ [EvAvailable i 0].
Proof.
  intros Hn Hs Hf. destruct fuel as [|fuel]; [lia|].
  simpl; unfold available; munfold; rewrite Hn, Hs; simpl.
  eexists. split; [done|]. done.
Qed.
End drain.

(** ** The pass over the clients *)

Section pass.
Implicit Types (st : State) (l : list addr) (a b : addr).

Lemma load_live a n st : heap st !! a = Some n → load a st = Ok (n, st).
Proof. unfold load. by intros ->. Qed.

Lemma connected_live a n st :
  heap st !! a = Some n →
  connected a st = Ok (alive st a, emit (EvConnected a (alive st a)) st).
Proof.
  intros Hn. unfold connected, alive, session_of. munfold. rewrite Hn. simpl.
  by destruct (net st !! client_socket (client n)).
Qed.

Lemma drain_events_drain i rx : ∀ wf,
  forallb (is_drain_event i) (drain_events i rx wf) = true.
Proof.
  induction rx as [|ch rx IH]; intros wf; simpl.
  - by rewrite bool_decide_eq_true_2.
  - rewrite !bool_decide_eq_true_2 by done. simpl.
    rewrite forallb_app, IH. by destruct (hd false wf).
Qed.

(** The drain of a live node returns and touches sessions and trace only. *)
Lemma echoLoop_drain_live i n st :
  heap st !! i = Some n →
  ∃ st1 d, echoLoop_drain (drain_budget i st) i st = Ok (tt, st1) ∧
    same_registry st st1 ∧
    (∀ sd, live <$> net st1 !! sd = live <$> net st !! sd) ∧
    trace st1 = trace st ++ d ∧
    forallb (is_drain_event i) d = true.
Proof.
  intros Hn. unfold drain_budget, session_of. rewrite Hn. simpl.
  destruct (net st !! client_socket (client n)) as [s|] eqn:Hs.
  - destruct (echoLoop_drain_session i n (rxbuf s) s st (S (length (rxbuf s))))
      as (st1 & Hrun & Hsame & Hnet & Htr); [done..|lia|].
    exists st1, (drain_events i (rxbuf s) (wfail s)).
    split; [done|]. split; [done|]. split; [|split; [done|]].
    + intros sd. rewrite Hnet.
      destruct (decide (sd = client_socket (client n))) as [->|].
      * by rewrite lookup_insert_eq, Hs.
      * by rewrite lookup_insert_ne.
    + apply drain_events_drain.
  - destruct (echoLoop_drain_no_session i n st 1) as (st1 & Hrun & Hsame & Hnet & Htr);
      [done..|lia|].
    exists st1, [EvAvailable i 0]. split; [done|]. split; [done|].
    split; [by rewrite Hnet|]. split; [done|].
    simpl. by rewrite bool_decide_eq_true_2.
Qed.

Lemma alive_ext st st1 a :
  payload <$> heap st1 !! a = payload <$> heap st !! a →
  (∀ sd, live <$> net st1 !! sd = live <$> net st !! sd) →
  alive st1 a = alive st a.
Proof.
  intros Hp Hl. unfold alive, session_of.
  destruct (heap st1 !! a) as [n1|], (heap st !! a) as [n|]; simpl in *;
    try done.
  injection Hp as _ Hc. rewrite Hc. specialize (Hl (client_socket (client n))).
  destruct (net st1 !! _), (net st !! _); simpl in *; congruence.
Qed.

Lemma socket_of_ext st st1 a :
  payload <$> heap st1 !! a = payload <$> heap st !! a →
  socket_of st1 a = socket_of st a.
Proof.
  intros Hp. unfold socket_of, payload in *.
  destruct (heap st1 !! a) as [n1|], (heap st !! a) as [n|]; simpl in *;
    congruence.
Qed.

Lemma pass_trace_ext up sd up' sd' l t :
  (∀ a, a ∈ l → up' a = up a ∧ sd' a = sd a) →
  pass_trace up sd l t → pass_trace up' sd' l t.
Proof.
  intros Hext Hp. induction Hp as [|a l d t Hd Hp IH]; [constructor|].
  destruct (Hext a) as [<- <-]; [left|].
  constructor; [done|]. apply IH. intros b Hb. apply Hext. by right.
Qed.

Lemma echoLoop_clients_S fuel i :
  echoLoop_clients (S fuel) i =
    match i with
    | None => ret tt
    | Some a =>
        n ← load a;
        let next := next n in
        budget ← get (drain_budget a);
        echoLoop_drain budget a;;
        up ← connected a;
        (if negb up then
           n ← load a;
           Serial_print "Client on socket ";;
           Serial_print_int (socket n);;
           Serial_println " disconnected.";;
           removeClient (Some a)
         else ret tt);;
        echoLoop_clients fuel next
    end.
Proof. done. Qed.

Lemma kept_ext st st1 l :
  (∀ a, a ∈ l → alive st1 a = alive st a) → kept st1 l = kept st l.
Proof.
  unfold kept. induction l as [|a l IH]; intros Hext; [done|].
  rewrite !filter_cons, Hext by left.
  rewrite IH; [done|]. intros b Hb. apply Hext. by right.
Qed.

Lemma kept_cons st a l :
  kept st (a :: l) = if alive st a then a :: kept st l else kept st l.
Proof.
  unfold kept. rewrite filter_cons. destruct (alive st a); by case_decide.
Qed.

(** The pass from any point of the chain: [done] are the nodes before
    [i] (already visited and found connected), [rest] those from [i] on. *)
Lemma echoLoop_clients_chain : ∀ rest fuel st done i,
  is_seg (heap st) (clients st) (done ++ rest) NULL →
  is_seg (heap st) i rest NULL →
  length rest < fuel →
  ∃ st' evs, echoLoop_clients fuel i st = Ok (tt, st') ∧
    nodes st' = Some (done ++ kept st rest) ∧
    (clientCount st' + Z.of_nat (length rest) =
       clientCount st + Z.of_nat (length (kept st rest)))%Z ∧
    trace st' = trace st ++ evs ∧
    pass_trace (alive st) (socket_of st) rest evs ∧
    (∀ b, b ∈ rest → alive st b = false → heap st' !! b = None) ∧
    (∀ b, heap st' !! b = None ∨
          payload <$> heap st' !! b = payload <$> heap st !! b) ∧
    (∀ sd, live <$> net st' !! sd = live <$> net st !! sd) ∧
    listenSocket st' = listenSocket st ∧ pending st' = pending st ∧
    mallocs st' = mallocs st.
Proof.
  induction rest as [|a rest IH]; intros fuel st done i Hall Hrest Hf;
    (destruct fuel as [|fuel]; [simpl in Hf; lia|]);
    rewrite echoLoop_clients_S.
  - simpl in Hrest. subst i. exists st, []. split; [done|].
    rewrite app_nil_r in *. split; [by apply nodes_chain|].
    split; [done|]. split; [by rewrite app_nil_r|].
    split; [constructor|]. split; [by intros b ?%elem_of_nil|].
    split; [by right|]. done.
  - pose proof (is_chain_NoDup _ _ _ Hall) as Hnd.
    apply NoDup_app in Hnd as (_ & Hdisj & [Ha Hnd]%NoDup_cons).
    destruct Hrest as (-> & n & Hn & Hnext).
    (* load, drain *)
    rewrite (bind_Ok _ _ _ _ _ (load_live _ _ _ Hn)). cbv zeta.
    erewrite bind_Ok by reflexivity.
    destruct (echoLoop_drain_live a n st Hn)
      as (st1 & d & Hdrain & Hsame1 & Hlive1 & Htr1 & Hd).
    rewrite (bind_Ok _ _ _ _ _ Hdrain).
    pose proof Hsame1 as (Hh1 & Hc1 & Hcnt1 & Hls1 & Hpe1 & Hml1).
    (* liveness check *)
    assert (heap st1 !! a = Some n) as Hn1 by by rewrite Hh1.
    rewrite (bind_Ok _ _ _ _ _ (connected_live _ _ _ Hn1)).
    assert (alive st1 a = alive st a) as Hup.
    { apply alive_ext; [by rewrite Hh1 | done]. }
    rewrite Hup.
    set (st2 := emit (EvConnected a (alive st a)) st1).
    destruct (alive st a) eqn:Halive; simpl negb; cbv iota.
    + (* still connected: the node stays *)
      erewrite bind_Ok by reflexivity.
      destruct (IH fuel st2 (done ++ [a]) (next n))
        as (st' & evs & Hrun & Hnodes & Hcnt & Htr & Hpass & Hgone & Hpay
            & Hlive & Hls & Hpe & Hml).
      { simpl. rewrite Hh1, Hc1, <- app_assoc. done. }
      { simpl. by rewrite Hh1. }
      { simpl in Hf. lia. }
      assert (∀ b, b ∈ rest → alive st2 b = alive st b) as Hal.
      { intros b Hb. apply alive_ext; simpl; [by rewrite Hh1 | done]. }
      exists st', (d ++ EvConnected a true :: [] ++ evs).
      split; [done|]. rewrite (kept_ext _ _ _ Hal) in Hnodes, Hcnt.
      rewrite kept_cons, Halive.
      split; [by rewrite Hnodes, <- app_assoc|].
      split; [simpl in *; lia|].
      split; [rewrite Htr; simpl; rewrite Htr1, <- !app_assoc; done|].
      split.
      { rewrite <- Halive at 1.
        replace [] with (if alive st a then []
                         else removal_events a (socket_of st a))
          by by rewrite Halive.
        constructor; [done|]. eapply pass_trace_ext; [|done].
        intros b Hb. split; [symmetry; by apply Hal|].
        symmetry. apply socket_of_ext. simpl. by rewrite Hh1. }
      split.
      { intros b [->|Hb]%elem_of_cons Hdead; [congruence|].
        apply Hgone; [done|]. by rewrite Hal. }
      split.
      { intros b. destruct (Hpay b) as [?|Hp]; [by left|right].
        rewrite Hp. simpl. by rewrite Hh1. }
      split.
      { intros sd. rewrite Hlive. simpl. done. }
      simpl in *. repeat split; congruence.
    + (* disconnected: the node is removed *)
      assert (heap st2 !! a = Some n) as Hn2 by done.
      set (st3 := emit (EvPrintln " disconnected.")
                    (emit (EvPrintInt (socket n))
                       (emit (EvPrint "Client on socket ") st2))).
      destruct (removeClient_present st3 done a rest)
        as (st4 & Hrm & Hnodes4 & Hcnt4 & Hgone4 & Hkeep4 & Hpay4 & Hls4
            & Hnet4 & Hpe4 & Hml4 & Htr4).
      { apply nodes_chain. simpl. by rewrite Hh1, Hc1. }
      erewrite bind_Ok; cycle 1.
      { rewrite (bind_Ok _ _ _ _ _ (load_live _ _ _ Hn2)).
        unfold Serial_print, Serial_print_int, Serial_println.
        do 3 (erewrite bind_Ok by reflexivity). exact Hrm. }
      assert (∀ b, b ∈ rest → heap st4 !! b = heap st !! b) as Hrest4.
      { intros b Hb. rewrite Hkeep4; [simpl; by rewrite Hh1| |].
        - intros ->. done.
        - intros Hbd. eapply Hdisj; [done | by right]. }
      destruct (IH fuel st4 done (next n))
        as (st' & evs & Hrun & Hnodes & Hcnt & Htr & Hpass & Hgone & Hpay
            & Hlive & Hls & Hpe & Hml).
      { by apply nodes_chain. }
      { eapply is_seg_ext; [done|]. done. }
      { simpl in Hf. lia. }
      assert (∀ b, b ∈ rest → alive st4 b = alive st b) as Hal.
      { intros b Hb. apply alive_ext; [by rewrite Hrest4|].
        intros sd. rewrite Hnet4. simpl. done. }
      exists st', (d ++ EvConnected a false
                     :: removal_events a (socket n) ++ evs).
      split; [done|].
      rewrite (kept_ext _ _ _ Hal) in Hnodes, Hcnt.
      rewrite kept_cons, Halive.
      split; [done|].
      split; [simpl in *; lia|].
      split.
      { rewrite Htr, Htr4. simpl. rewrite Htr1, <- !app_assoc. done. }
      split.
      { rewrite <- Halive at 1.
        replace (removal_events a (socket n))
          with (if alive st a then []
                else removal_events a (socket_of st a)).
        2:{ rewrite Halive. unfold socket_of. by rewrite Hn. }
        constructor; [done|]. eapply pass_trace_ext; [|done].
        intros b Hb. split; [symmetry; by apply Hal|].
        symmetry. apply socket_of_ext. by rewrite Hrest4. }
      split.
      { intros b [->|Hb]%elem_of_cons Hdead.
        - destruct (Hpay a) as [?|Hp]; [done|].
          rewrite Hgone4 in Hp. by destruct (heap st' !! a).
        - apply Hgone; [done|]. by rewrite Hal. }
      split.
      { intros b. destruct (Hpay b) as [?|Hp]; [by left|].
        destruct (decide (b = a)) as [->|Hba].
        - left. rewrite Hgone4 in Hp. by destruct (heap st' !! a).
        - right. rewrite Hp, Hpay4 by done. simpl. by rewrite Hh1. }
      split.
      { intros sd. rewrite Hlive, Hnet4. simpl. done. }
      simpl in *. repeat split; congruence.
Qed.
End pass.

(** ** One tick *)

Section tick.
Implicit Types (st : State) (l : list addr) (a b c : addr).

Lemma liveness_checks_app t1 t2 :
  liveness_checks (t1 ++ t2) = liveness_checks t1 ++ liveness_checks t2.
Proof. apply omap_app. Qed.

Lemma accept_calls_app t1 t2 :
  accept_calls (t1 ++ t2) = accept_calls t1 ++ accept_calls t2.
Proof. apply omap_app. Qed.

Lemma drain_no_checks i d :
  forallb (is_drain_event i) d = true →
  liveness_checks d = [] ∧ accept_calls d = [].
Proof.
  induction d as [|e d IH]; simpl; [done|].
  intros [He Hd]%andb_true_iff. destruct (IH Hd) as [IH1 IH2].
  unfold liveness_checks, accept_calls in *. simpl. rewrite IH1, IH2.
  by destruct e.
Qed.

(** A pass checks the liveness of every node once, in chain order, and
    never calls [accept]. *)
Lemma pass_trace_checks up sd l t :
  pass_trace up sd l t →
  liveness_checks t = map (λ a, (a, up a)) l ∧ accept_calls t = [].
Proof.
  induction 1 as [|a l d t Hd Hp [IH1 IH2]]; [done|].
  destruct (drain_no_checks _ _ Hd) as [Hd1 Hd2].
  rewrite liveness_checks_app, accept_calls_app, Hd1, Hd2. simpl.
  change (EvConnected a (up a) :: ?x) with ([EvConnected a (up a)] ++ x).
  unfold liveness_checks, accept_calls in *.
  rewrite !omap_app, IH1, IH2. simpl.
  by destruct (up a).
Qed.

(** The pass over a well-formed registry. *)
Lemma echoLoop_pass_chain st l :
  nodes st = Some l →
  ∃ st' evs, echoLoop_pass st = Ok (tt, st') ∧
    nodes st' = Some (kept st l) ∧
    (clientCount st' + Z.of_nat (length l) =
       clientCount st + Z.of_nat (length (kept st l)))%Z ∧
    trace st' = trace st ++ evs ∧
    pass_trace (alive st) (socket_of st) l evs ∧
    (∀ b, b ∈ l → alive st b = false → heap st' !! b = None) ∧
    (∀ b, heap st' !! b = None ∨
          payload <$> heap st' !! b = payload <$> heap st !! b) ∧
    (∀ sd, live <$> net st' !! sd = live <$> net st !! sd) ∧
    listenSocket st' = listenSocket st ∧ pending st' = pending st ∧
    mallocs st' = mallocs st.
Proof.
  intros Hl%nodes_chain. unfold echoLoop_pass.
  do 2 (erewrite bind_Ok by reflexivity).
  apply (echoLoop_clients_chain l _ st []); [done..|].
  apply is_chain_bound in Hl. lia.
Qed.

(** The accept phase on a well-formed registry: at most one [accept]
    call, at most one new node, linked in front of the others. *)
Lemma echoLoop_accept_chain st l :
  nodes st = Some l →
  ∃ st' new evs, echoLoop_accept st = Ok (tt, st') ∧
    nodes st' = Some (new ++ l) ∧
    clientCount st' = (clientCount st + Z.of_nat (length new))%Z ∧
    trace st' = trace st ++ evs ∧
    (new = [] ∨
     ∃ c, new = [c] ∧ heap st !! c = None ∧
          (clientCount st < MAX_CLIENTS)%Z ∧
          (hd (-1) (pending st) > -1)%Z ∧
          heap st' !! c =
            Some (mkClientList (hd (-1)%Z (pending st))
                    (Client (hd (-1)%Z (pending st))) (clients st))) ∧
    accept_calls evs =
      (if decide (clientCount st < MAX_CLIENTS)%Z
       then [hd (-1)%Z (pending st)] else []) ∧
    liveness_checks evs = [] ∧
    forallb (λ e, negb (is_client_call e)) evs = true ∧
    (∀ b, b ∈ l → heap st' !! b = heap st !! b) ∧
    net st' = net st ∧
    pending st' =
      (if decide (clientCount st < MAX_CLIENTS)%Z
       then tail (pending st) else pending st).
Proof.
  intros Hl. unfold echoLoop_accept.
  erewrite bind_Ok by reflexivity.
  case_decide as Hcap.
  2:{ exists st, [], []. rewrite app_nil_r. simpl.
      split; [done|]. split; [done|]. split; [lia|]. eauto 10. }
  erewrite bind_Ok by reflexivity.
  unfold accept at 1. erewrite bind_Ok by reflexivity.
  set (r := hd (-1)%Z (pending st)).
  set (st1 := emit (EvAccept (listenSocket st) r)
                (set_pending (tail (pending st)) st)).
  case_decide as Hr.
  2:{ eexists st1, [], _. simpl. split; [done|]. split; [done|].
      split; [lia|]. eauto 10. }
  unfold Serial_print, Serial_println_int.
  do 2 (erewrite bind_Ok by reflexivity).
  set (st2 := emit (EvPrintlnInt r) (emit _ st1)).
  destruct (malloc st2) as [[[c|] st3]| |] eqn:Hm; [| |done..].
  - destruct (addNewClient_some r _ _ _ Hm)
      as (st' & Hrun & Hh & Hc & Hcnt & Hls & Hnet & Hpe & Hml & Htr).
    destruct (addNewClient_nodes r st2 st3 c l Hm Hl) as (st'' & Hrun' & Hn).
    rewrite Hrun in Hrun'. injection Hrun' as <-.
    apply malloc_inv in Hm as (_ & _ & _ & _ & _ & _ & _ & Hfresh & _).
    eexists st', [c], _. split; [done|]. split; [done|].
    split; [rewrite Hcnt; simpl; lia|].
    split; [rewrite Htr; simpl; by rewrite <- !app_assoc|].
    split.
    { right. exists c. split; [done|]. split; [done|]. split; [done|].
      split; [done|]. rewrite Hh. apply lookup_insert_eq. }
    split; [done|]. split; [done|]. split; [done|]. split; [|by split].
    intros b Hb. rewrite Hh. simpl. apply lookup_insert_ne. intros <-.
    apply nodes_chain in Hl. eapply is_seg_live in Hb as [? Hb]; [|done].
    simpl in Hfresh. congruence.
  - rewrite (addNewClient_null r _ _ Hm).
    apply malloc_inv in Hm as (Hc & Hcnt & Hls & Hnet & Hpe & Hml & Htr & Hh).
    subst st2 st1. simpl in *.
    eexists (emit (EvPrintln "Error! Couldn't allocate space to store a new client.") st3),
      [], _.
    split; [done|].
    split; [unfold nodes in *; simpl; by rewrite Hh, Hc|].
    split; [simpl; lia|].
    split; [simpl; rewrite Htr; simpl; by rewrite <- !app_assoc|].
    split; [by left|]. split; [done|]. split; [done|]. split; [done|].
    split; [intros; simpl; by rewrite Hh|]. simpl. by rewrite Hnet, Hpe.
Qed.
End tick.

(** ** The size invariant *)

Section sequences.
Implicit Types (st : State) (l : list addr).

Lemma apply_op_size_ok o st :
  size_ok st → ∃ st', apply_op o st = Ok (tt, st') ∧ size_ok st'.
Proof.
  intros (l & Hl & Hcnt). destruct o as [socket|[c|]]; unfold apply_op.
  - destruct (malloc st) as [[[c|] st1]| |] eqn:Hm; [| |done..].
    + destruct (addNewClient_some socket _ _ _ Hm)
        as (st' & Hrun & _ & _ & Hcnt' & _).
      destruct (addNewClient_nodes socket _ _ _ l Hm Hl) as (st'' & Hrun' & Hn).
      rewrite Hrun in Hrun'. injection Hrun' as <-.
      exists st'. split; [done|]. exists (c :: l). split; [done|].
      rewrite Hcnt', Hcnt. simpl. lia.
    + rewrite (addNewClient_null socket _ _ Hm). eexists. split; [done|].
      apply malloc_inv in Hm as (Hc & Hn & _ & _ & _ & _ & _ & Hh).
      exists l. unfold nodes in *. simpl. by rewrite Hh, Hc, Hn.
  - destruct (decide (c ∈ l)) as [Hin|Hout].
    + apply list_elem_of_split in Hin as (l1 & l2 & ->).
      destruct (removeClient_present st l1 c l2 Hl)
        as (st' & Hrun & Hn & Hcnt' & _).
      exists st'. split; [done|]. exists (l1 ++ l2). split; [done|].
      rewrite Hcnt', Hcnt, !length_app. simpl. lia.
    + rewrite (removeClient_absent st l c Hl Hout). eexists. split; [done|].
      by exists l.
  - eexists. split; [done|]. by exists l.
Qed.

Lemma initial_size_ok st : initial st → size_ok st.
Proof.
  intros (Hc & Hn). exists []. split; [|done].
  apply nodes_chain. by rewrite Hc.
Qed.

Lemma apply_ops_size_ok ops : ∀ st,
  size_ok st → ∃ st', apply_ops ops st = Ok (tt, st') ∧ size_ok st'.
Proof.
  induction ops as [|o ops IH]; intros st Hst; simpl.
  - by exists st.
  - destruct (apply_op_size_ok o st Hst) as (st1 & Hrun & Hst1).
    rewrite (bind_Ok _ _ _ _ _ Hrun). by apply IH.
Qed.

(** X15 -- Inserts stack up.  After inserting [sockets] one by one, each
    allocation succeeding, the traversal meets the new nodes most recently
    inserted first, each carrying its socket, then the nodes that were there
    before, untouched. *)
Lemma inserts_most_recent_first : ∀ sockets cs st l q,
  nodes st = Some l →
  mallocs st = (Some <$> cs) ++ q →
  length cs = length sockets →
  NoDup cs → (∀ c, c ∈ cs → heap st !! c = None) →
  ∃ st', apply_ops (Insert <$> sockets) st = Ok (tt, st') ∧
    nodes st' = Some (reverse cs ++ l) ∧
    socket_of st' <$> reverse cs = reverse sockets ∧
    (∀ b n, heap st !! b = Some n → heap st' !! b = Some n).
Proof.
  induction sockets as [|s ss IH]; intros [|c cs] st l q Hl Hml Hlen Hnd Hfresh;
    try done.
  - exists st. by repeat split.
  - apply NoDup_cons in Hnd as [Hc Hnd].
    assert (∃ st1, malloc st = Ok (Some c, st1)) as [st1 Hm].
    { unfold malloc. rewrite Hml. simpl.
      rewrite decide_True by (apply Hfresh; left). eauto. }
    destruct (addNewClient_some s _ _ _ Hm)
      as (st2 & Hrun & Hh & _ & _ & _ & _ & _ & Hml2 & _).
    destruct (addNewClient_nodes s _ _ _ l Hm Hl) as (st2' & Hrun' & Hn2).
    rewrite Hrun in Hrun'. injection Hrun' as <-.
    destruct (IH cs st2 (c :: l) q) as (st' & Hops & Hn & Hsk & Hkeep).
    { done. }
    { by rewrite Hml2, Hml. }
    { simpl in Hlen. lia. }
    { done. }
    { intros c' Hc'. rewrite Hh, lookup_insert_ne; [|by intros <-].
      apply Hfresh. by right. }
    exists st'. split.
    { rewrite fmap_cons. change (apply_ops (?o :: ?os))
        with (apply_op o;; apply_ops os).
      change (apply_op (Insert s)) with (addNewClient s).
      by rewrite (bind_Ok _ _ _ _ _ Hrun). }
    rewrite !reverse_cons, <- app_assoc. split; [done|]. split.
    + rewrite fmap_app, Hsk. simpl. f_equal. unfold socket_of.
      rewrite (Hkeep c (mkClientList s (Client s) (clients st))); [done|].
      rewrite Hh. apply lookup_insert_eq.
    + intros b n Hb. apply Hkeep. rewrite Hh, lookup_insert_ne; [done|].
      intros <-. rewrite Hfresh in Hb; [done | left].
Qed.

Lemma inserts_most_recent_first_witness :
  (nodes empty_server = Some [] ∧
   mallocs empty_server = (Some <$> [1; 2]%positive) ++ []) ∧
  ∃ st', apply_ops (Insert <$> [4; 5]%Z) empty_server = Ok (tt, st') ∧
    nodes st' = Some [2; 1]%positive ∧
    socket_of st' <$> [2; 1]%positive = [5; 4]%Z.
Proof.
  split; [split; reflexivity|].
  destruct (inserts_most_recent_first [4; 5]%Z [1; 2]%positive empty_server
              [] [] eq_refl eq_refl eq_refl)
    as (st' & Hrun & Hn & Hsk & _).
  - repeat constructor; intros Hin;
      repeat (apply elem_of_cons in Hin as [Hin|Hin]; [discriminate Hin|]);
      by apply elem_of_nil in Hin.
  - intros c Hc. reflexivity.
  - exists st'. split; [exact Hrun|]. split; [exact Hn | exact Hsk].
Defined.
End sequences.

(** ** The example states at work *)

Section examples.
Example three_clients_nodes :
  nodes three_clients = Some [3; 2; 1]%positive.
Proof. reflexivity. Qed.

Example three_clients_tick :
  match echoLoop three_clients with
  | Ok (_, st) => (nodes st, clientCount st, txlog <$> net st !! 4%Z, trace st)
  | _ => (None, 0%Z, None, [])
  end =
  (Some [9; 3; 1]%positive, 3%Z, Some ["h"; "i"; x0a]%byte,
   [EvAvailable 3 1; EvRead 3 "x"; EvWrite 3 "x" 0;
    EvPrintln "Error writing character to client!";
    EvAvailable 3 0; EvConnected 3 true;
    EvAvailable 2 0; EvConnected 2 false;
    EvPrint "Client on socket "; EvPrintInt 5; EvPrintln " disconnected.";
    EvFree 2;
    EvAvailable 1 3; EvRead 1 "h"; EvWrite 1 "h" 1;
    EvAvailable 1 2; EvRead 1 "i"; EvWrite 1 "i" 1;
    EvAvailable 1 1; EvRead 1 x0a; EvWrite 1 x0a 1;
    EvAvailable 1 0; EvConnected 1 true;
    EvAccept 0 7; EvPrint "New client connected on socket ";
    EvPrintlnInt 7; EvMalloc (Some 9%positive)]%positive).
Proof. vm_compute. reflexivity. Qed.

Lemma state_after_run (m : M unit) (st st' : State) :
  m st = Ok (tt, st') → state_after m st = st'.
Proof. unfold state_after. by intros ->. Qed.

(** The four ticks of the lobby. *)
Example lobby_tick1 : echoLoop lobby = Ok (tt, lobby1).
Proof. vm_compute. reflexivity. Qed.

Example lobby_tick2 : echoLoop lobby1 = Ok (tt, lobby2).
Proof. vm_compute. reflexivity. Qed.

Example lobby_tick3 : echoLoop lobby2 = Ok (tt, lobby3).
Proof. vm_compute. reflexivity. Qed.

Example lobby_tick4 : echoLoop lobby3 = Ok (tt, lobby4).
Proof. vm_compute. reflexivity. Qed.

Example lobby_registries :
  (nodes lobby1, nodes lobby2, nodes lobby3, nodes lobby4) =
  (Some [1], Some [2; 1], Some [3; 1], Some [2; 3; 1])%positive ∧
  (clientCount lobby3, clientCount lobby4) = (2, 3)%Z ∧
  EvFree 2 ∈ trace lobby3.
Proof.
  split; [vm_compute; reflexivity|]. split; [vm_compute; reflexivity|].
  vm_compute. repeat first [apply list_elem_of_here | apply list_elem_of_further].
Qed.
End examples.

(** ** The properties of the registry *)

Section registry_claims.
Implicit Types (st : State) (l : list addr) (c : addr).

Lemma filter_other_id c l : c ∉ l → filter (λ b, b ≠ c) l = l.
Proof.
  induction l as [|a l IH]; intros Hc; [done|].
  rewrite filter_cons_True by (intros ->; apply Hc; left).
  rewrite IH; [done|]. intros ?. apply Hc. by right.
Qed.

(** C2 -- Registry size invariant.  Starting from the empty registry, after
    every prefix of every sequence of [addNewClient] and [removeClient]
    calls (whatever the sockets, the pointers passed and the answers of the
    allocator), the operations have returned and [clientCount] equals the
    number of nodes reachable from [clients]. *)
Theorem registry_size_invariant (ops : list registry_op) (k : nat) st :
  initial st →
  ∃ st', apply_ops (take k ops) st = Ok (tt, st') ∧
    ∃ l, nodes st' = Some l ∧ clientCount st' = Z.of_nat (length l).
Proof. intros Hi. by apply apply_ops_size_ok, initial_size_ok. Qed.

Lemma registry_size_invariant_witness :
  initial empty_server ∧
  ∃ st', apply_ops [Insert 4; Insert 5; Remove (Some 1%positive); Insert 6;
                    Remove (Some 7%positive)] empty_server = Ok (tt, st') ∧
    ∃ l, nodes st' = Some l ∧ clientCount st' = Z.of_nat (length l).
Proof.
  split; [by repeat split|].
  apply (registry_size_invariant
           [Insert 4; Insert 5; Remove (Some 1%positive); Insert 6;
            Remove (Some 7%positive)] 5 empty_server).
  by repeat split.
Defined.

(** C4 -- Removal preserves the rest of the chain.  In a registry, where
    the count is the number of nodes of the chain, for a node [c] of the
    chain, be it the head ([l1] empty), a middle node or the sole node,
    [removeClient] returns, the traversal then meets exactly the other
    nodes in their former order, each with the socket and client object it
    had, the storage of [c] is released and the count is one less: it is
    again the number of nodes, so the decrement stays within [int]. *)
Theorem removal_preserves_chain st l1 c l2 :
  nodes st = Some (l1 ++ c :: l2) →
  clientCount st = Z.of_nat (length (l1 ++ c :: l2)) →
  ∃ st', removeClient (Some c) st = Ok (tt, st') ∧
    nodes st' = Some (l1 ++ l2) ∧
    l1 ++ l2 = filter (λ b, b ≠ c) (l1 ++ c :: l2) ∧
    clientCount st' = (clientCount st - 1)%Z ∧
    heap st' !! c = None ∧
    (∀ b, b ≠ c → payload <$> heap st' !! b = payload <$> heap st !! b) ∧
    clientCount st' = Z.of_nat (length (l1 ++ l2)) ∧
    (0 ≤ clientCount st')%Z.
Proof.
  intros Hl Hsize.
  destruct (removeClient_present st l1 c l2 Hl)
    as (st' & Hrun & Hn & Hcnt & Hgone & _ & Hpay & _).
  exists st'.
  assert (clientCount st' = Z.of_nat (length (l1 ++ l2))) as Hsize'.
  { rewrite Hcnt, Hsize, !length_app. simpl. lia. }
  repeat (split; [done|]). split; [|repeat (split; [done|]); lia].
  apply nodes_chain, is_chain_NoDup in Hl.
  apply NoDup_app in Hl as (_ & Hdisj & [Hc2 _]%NoDup_cons).
  rewrite filter_app, filter_cons_False by (intros Hne; by apply Hne).
  rewrite !filter_other_id; [done..|].
  intros Hc1. by eapply Hdisj; [|left].
Qed.

Lemma removal_preserves_chain_witness :
  (nodes three_clients = Some ([3%positive] ++ 2%positive :: [1%positive]) ∧
   clientCount three_clients =
     Z.of_nat (length ([3%positive] ++ 2%positive :: [1%positive]))) ∧
  ∃ st', removeClient (Some 2%positive) three_clients = Ok (tt, st') ∧
    nodes st' = Some [3; 1]%positive ∧ clientCount st' = 2%Z.
Proof.
  split; [split; reflexivity|].
  destruct (removal_preserves_chain three_clients [3%positive] 2%positive
              [1%positive] eq_refl eq_refl) as (st' & Hrun & Hn & _ & Hcnt & _).
  exists st'. split; [exact Hrun|]. split; [exact Hn | exact Hcnt].
Defined.

(** C6 -- Insert atomicity on allocation failure.  When [malloc] answers
    [NULL], [addNewClient] returns normally; the heap, the chain head, the
    count and the sessions are as before, and the only thing done is the
    message on the serial console. *)
Theorem insert_allocation_failure socket st st1 :
  malloc st = Ok (NULL, st1) →
  ∃ st', addNewClient socket st = Ok (tt, st') ∧
    heap st' = heap st ∧ clients st' = clients st ∧
    clientCount st' = clientCount st ∧ nodes st' = nodes st ∧
    net st' = net st ∧
    trace st' = trace st ++
      [EvMalloc NULL;
       EvPrintln "Error! Couldn't allocate space to store a new client."].
Proof.
  intros Hm. rewrite (addNewClient_null socket _ _ Hm). eexists. split; [done|].
  apply malloc_inv in Hm as (Hc & Hn & _ & Hw & _ & _ & Ht & Hh).
  unfold nodes. simpl. rewrite Hh, Hc, Hn, Hw, Ht, <- app_assoc. done.
Qed.

Lemma insert_allocation_failure_witness :
  (∃ st1, malloc out_of_memory = Ok (NULL, st1)) ∧
  ∃ st', addNewClient 4 out_of_memory = Ok (tt, st') ∧
    clients st' = NULL ∧ clientCount st' = 0%Z.
Proof.
  split; [eexists; reflexivity|].
  destruct (insert_allocation_failure 4 out_of_memory _ eq_refl)
    as (st' & Hrun & _ & Hc & Hn & _).
  exists st'. split; [exact Hrun|]. split; [exact Hc | exact Hn].
Defined.

(** C7 -- Removing an absent node is a no-op.  On a registry whose chain
    ends in [NULL], [removeClient] called with [NULL] or with a pointer to
    no node of the chain returns and leaves the whole state as it was: the
    count, the head and every node. *)
Theorem remove_absent_noop st l (client : ptr) :
  nodes st = Some l →
  (∀ c, client = Some c → c ∉ l) →
  removeClient client st = Ok (tt, st).
Proof.
  intros Hl Hc. destruct client as [c|]; [|done].
  eapply removeClient_absent; [done|]. by apply Hc.
Qed.

Lemma remove_absent_noop_witness :
  (nodes three_clients = Some [3; 2; 1]%positive ∧
   ∀ c, Some 7%positive = Some c → c ∉ [3; 2; 1]%positive) ∧
  removeClient (Some 7%positive) three_clients = Ok (tt, three_clients).
Proof.
  assert (∀ c, Some 7%positive = Some c → c ∉ [3; 2; 1]%positive) as Hc.
  { intros c [= <-] Hin. repeat (apply elem_of_cons in Hin as [Hin|Hin];
      [discriminate Hin|]). by apply elem_of_nil in Hin. }
  split; [split; [reflexivity | exact Hc]|].
  exact (remove_absent_noop three_clients [3; 2; 1]%positive
           (Some 7%positive) eq_refl Hc).
Defined.

(** C10 -- [addNewClient] has no capacity check.  Whenever the allocation
    succeeds, and the count is an [int] below [INT_MAX] so that the
    increment does not overflow, the node is linked in front and the count
    grows by one, also from [MAX_CLIENTS] to [MAX_CLIENTS + 1]; the guard of
    the accept phase is what keeps the sketch from calling it at
    capacity. *)
Theorem insert_ignores_capacity socket st st1 c :
  malloc st = Ok (Some c, st1) →
  (INT_MIN ≤ clientCount st < INT_MAX)%Z →
  ∃ st', addNewClient socket st = Ok (tt, st') ∧
    clients st' = Some c ∧
    clientCount st' = (clientCount st + 1)%Z ∧
    (clientCount st = MAX_CLIENTS → clientCount st' = (MAX_CLIENTS + 1)%Z) ∧
    ((clientCount st >= MAX_CLIENTS)%Z → echoLoop_accept st = Ok (tt, st)) ∧
    (INT_MIN < clientCount st' ≤ INT_MAX)%Z.
Proof.
  intros Hm Hint. destruct (addNewClient_some socket _ _ _ Hm)
    as (st' & Hrun & _ & Hc & Hcnt & _).
  exists st'. repeat (split; [done|]). split; [lia|]. split; [|lia].
  intros Hcap. unfold echoLoop_accept. erewrite bind_Ok by reflexivity.
  by rewrite decide_False by lia.
Qed.

Lemma insert_ignores_capacity_witness :
  (∃ st1, malloc three_clients = Ok (Some 9%positive, st1)) ∧
  (INT_MIN ≤ clientCount three_clients < INT_MAX)%Z ∧
  clientCount three_clients = MAX_CLIENTS ∧
  ∃ st', addNewClient 7 three_clients = Ok (tt, st') ∧
    clientCount st' = 4%Z.
Proof.
  assert (INT_MIN ≤ clientCount three_clients < INT_MAX)%Z as Hint
    by (vm_compute; split; [discriminate | reflexivity]).
  split; [eexists; reflexivity|]. split; [exact Hint|]. split; [reflexivity|].
  destruct (insert_ignores_capacity 7 three_clients _ 9%positive eq_refl Hint)
    as (st' & Hrun & _ & _ & Hcap & _).
  exists st'. split; [exact Hrun | exact (Hcap eq_refl)].
Defined.
End registry_claims.

(** ** One turn of the pass *)

Section visit.
Implicit Types (st : State) (l : list addr) (a b : addr).

Lemma drained_idemp s : drained (drained s) = drained s.
Proof.
  unfold drained. simpl. rewrite app_nil_r. by rewrite drop_0.
Qed.

Lemma drained_empty s : rxbuf s = [] → drained s = s.
Proof.
  destruct s as [rx tx wf lv]. unfold drained. simpl. intros ->. simpl.
  by rewrite app_nil_r.
Qed.

(** The drain of a live node, with the sessions it leaves. *)
Lemma echoLoop_drain_net i n st :
  heap st !! i = Some n →
  ∃ st1 d, echoLoop_drain (drain_budget i st) i st = Ok (tt, st1) ∧
    same_registry st st1 ∧
    net st1 = drain_in (heap st) (net st) i ∧
    trace st1 = trace st ++ d.
Proof.
  intros Hn. unfold drain_budget, session_of, drain_in. rewrite Hn. simpl.
  destruct (net st !! client_socket (client n)) as [s|] eqn:Hs.
  - destruct (echoLoop_drain_session i n (rxbuf s) s st (S (length (rxbuf s))))
      as (st1 & Hrun & Hsame & Hnet & Htr); [done..|lia|]. eauto 10.
  - destruct (echoLoop_drain_no_session i n st 1)
      as (st1 & Hrun & Hsame & Hnet & Htr); [done..|lia|]. eauto 10.
Qed.

Lemma drain_in_live h w a sd :
  live <$> drain_in h w a !! sd = live <$> w !! sd.
Proof.
  unfold drain_in. destruct (h !! a) as [n|]; [|done].
  destruct (w !! client_socket (client n)) as [s|] eqn:Hs; [|done].
  destruct (decide (sd = client_socket (client n))) as [->|].
  - by rewrite lookup_insert_eq, Hs.
  - by rewrite lookup_insert_ne.
Qed.

(** One turn of the loop of the pass, on the node [a] of a chain
    [done ++ a :: rest]. *)
Lemma echoLoop_clients_visit fuel st done a rest :
  is_seg (heap st) (clients st) (done ++ a :: rest) NULL →
  ∃ st1 n,
    heap st !! a = Some n ∧
    echoLoop_clients (S fuel) (Some a) st = echoLoop_clients fuel (next n) st1 ∧
    is_seg (heap st1) (clients st1)
      ((if alive st a then done ++ [a] else done) ++ rest) NULL ∧
    is_seg (heap st1) (next n) rest NULL ∧
    net st1 = drain_in (heap st) (net st) a ∧
    (∀ b, b ∈ rest → heap st1 !! b = heap st !! b) ∧
    (alive st a = true →
       heap st1 = heap st ∧ clients st1 = clients st ∧
       clientCount st1 = clientCount st) ∧
    listenSocket st1 = listenSocket st ∧ pending st1 = pending st ∧
    mallocs st1 = mallocs st.
Proof.
  intros Hall.
  pose proof (is_chain_NoDup _ _ _ Hall) as Hnd.
  apply NoDup_app in Hnd as (_ & Hdisj & [Ha Hnd]%NoDup_cons).
  pose proof Hall as Hrest. apply is_seg_app in Hrest as (r & _ & Hrest).
  destruct Hrest as (-> & n & Hn & Hnext).
  rewrite echoLoop_clients_S.
  rewrite (bind_Ok _ _ _ _ _ (load_live _ _ _ Hn)). cbv zeta.
  erewrite bind_Ok by reflexivity.
  destruct (echoLoop_drain_net a n st Hn)
    as (st1 & d & Hdrain & Hsame1 & Hnet1 & Htr1).
  rewrite (bind_Ok _ _ _ _ _ Hdrain).
  pose proof Hsame1 as (Hh1 & Hc1 & Hcnt1 & Hls1 & Hpe1 & Hml1).
  assert (heap st1 !! a = Some n) as Hn1 by by rewrite Hh1.
  rewrite (bind_Ok _ _ _ _ _ (connected_live _ _ _ Hn1)).
  assert (alive st1 a = alive st a) as Hup.
  { apply alive_ext; [by rewrite Hh1|].
    intros sd. rewrite Hnet1. apply drain_in_live. }
  rewrite Hup.
  set (st2 := emit (EvConnected a (alive st a)) st1).
  destruct (alive st a) eqn:Halive; simpl negb; cbv iota.
  - erewrite bind_Ok by reflexivity.
    exists st2, n. split; [done|]. split; [done|]. simpl.
    rewrite Hh1, Hc1, <- app_assoc. by repeat split.
  - assert (heap st2 !! a = Some n) as Hn2 by done.
    set (st3 := emit (EvPrintln " disconnected.")
                  (emit (EvPrintInt (socket n))
                     (emit (EvPrint "Client on socket ") st2))).
    destruct (removeClient_present st3 done a rest)
      as (st4 & Hrm & Hnodes4 & Hcnt4 & Hgone4 & Hkeep4 & Hpay4 & Hls4
          & Hnet4 & Hpe4 & Hml4 & Htr4).
    { apply nodes_chain. simpl. by rewrite Hh1, Hc1. }
    erewrite bind_Ok; cycle 1.
    { rewrite (bind_Ok _ _ _ _ _ (load_live _ _ _ Hn2)).
      unfold Serial_print, Serial_print_int, Serial_println.
      do 3 (erewrite bind_Ok by reflexivity). exact Hrm. }
    assert (∀ b, b ∈ rest → heap st4 !! b = heap st !! b) as Hrest4.
    { intros b Hb. rewrite Hkeep4; [simpl; by rewrite Hh1| |].
      - intros ->. done.
      - intros Hbd. eapply Hdisj; [done | by right]. }
    exists st4, n. split; [done|]. split; [done|].
    split; [by apply nodes_chain|].
    split; [by eapply is_seg_ext|].
    split; [by rewrite Hnet4|]. split; [done|]. split; [done|].
    simpl in *. repeat split; congruence.
Qed.
End visit.

(** ** What a pass does to the sessions *)

Section sessions.
Implicit Types (st : State) (l : list addr) (a b : addr).

Lemma foldl_drain_in_ext (h h' : gmap positive ClientList) l : ∀ w,
  (∀ b, b ∈ l → h' !! b = h !! b) →
  foldl (drain_in h') w l = foldl (drain_in h) w l.
Proof.
  induction l as [|a l IH]; intros w Hext; [done|]. simpl.
  rewrite IH by (intros b Hb; apply Hext; by right).
  unfold drain_in at 2 4. by rewrite Hext by left.
Qed.

Lemma drain_in_other (h : gmap positive ClientList) w a n sd :
  h !! a = Some n → sd ≠ client_socket (client n) →
  drain_in h w a !! sd = w !! sd.
Proof.
  intros Ha Hne. unfold drain_in. rewrite Ha.
  destruct (w !! client_socket (client n)); [by rewrite lookup_insert_ne|done].
Qed.

Lemma drain_in_self (h : gmap positive ClientList) w a n :
  h !! a = Some n →
  drain_in h w a !! client_socket (client n) =
    drained <$> w !! client_socket (client n).
Proof.
  intros Ha. unfold drain_in. rewrite Ha.
  destruct (w !! client_socket (client n)) as [s|] eqn:Hs.
  - by rewrite lookup_insert_eq.
  - by rewrite Hs.
Qed.

(** A session no node of [l] is attached to is left alone. *)
Lemma foldl_drain_in_unserved (h : gmap positive ClientList) l : ∀ w sd,
  sd ∉ omap (λ a, (λ n, client_socket (client n)) <$> h !! a) l →
  foldl (drain_in h) w l !! sd = w !! sd.
Proof.
  induction l as [|a l IH]; intros w sd Hout; [done|].
  change (foldl (drain_in h) w (a :: l))
    with (foldl (drain_in h) (drain_in h w a) l).
  simpl in Hout. destruct (h !! a) as [n|] eqn:Ha; simpl in Hout.
  - rewrite IH by (intros ?; apply Hout; by right).
    eapply drain_in_other; [done|]. intros ->. apply Hout. left.
  - rewrite IH by done. unfold drain_in. by rewrite Ha.
Qed.

(** A session some node of [l] is attached to is drained, once for all. *)
Lemma foldl_drain_in_served (h : gmap positive ClientList) l : ∀ w sd,
  sd ∈ omap (λ a, (λ n, client_socket (client n)) <$> h !! a) l →
  foldl (drain_in h) w l !! sd = drained <$> w !! sd.
Proof.
  induction l as [|a l IH]; intros w sd Hin; [by apply elem_of_nil in Hin|].
  change (foldl (drain_in h) w (a :: l))
    with (foldl (drain_in h) (drain_in h w a) l).
  simpl in Hin. destruct (h !! a) as [n|] eqn:Ha; simpl in Hin.
  - destruct (decide (sd = client_socket (client n))) as [->|Hne].
    + destruct (decide (client_socket (client n) ∈
                  omap (λ a, (λ n, client_socket (client n)) <$> h !! a) l))
        as [Hl|Hl].
      * rewrite (IH _ _ Hl), (drain_in_self h w a n Ha).
        destruct (w !! client_socket (client n)); simpl; [|done].
        by rewrite drained_idemp.
      * rewrite (foldl_drain_in_unserved _ _ _ _ Hl).
        by apply drain_in_self.
    + apply elem_of_cons in Hin as [?|Hin]; [done|].
      rewrite (IH _ _ Hin). by erewrite drain_in_other.
  - rewrite (IH _ _ Hin). unfold drain_in. by rewrite Ha.
Qed.

(** The sessions after a pass: the drains of the nodes, one after the
    other; and a pass over nodes that are all connected leaves the registry
    as it was. *)
Lemma echoLoop_clients_sessions : ∀ rest fuel st done i,
  is_seg (heap st) (clients st) (done ++ rest) NULL →
  is_seg (heap st) i rest NULL →
  length rest < fuel →
  ∃ st', echoLoop_clients fuel i st = Ok (tt, st') ∧
    net st' = foldl (drain_in (heap st)) (net st) rest ∧
    listenSocket st' = listenSocket st ∧ pending st' = pending st ∧
    mallocs st' = mallocs st ∧
    ((∀ a, a ∈ rest → alive st a = true) →
       heap st' = heap st ∧ clients st' = clients st ∧
       clientCount st' = clientCount st).
Proof.
  induction rest as [|a rest IH]; intros fuel st done i Hall Hrest Hf;
    (destruct fuel as [|fuel]; [simpl in Hf; lia|]).
  - simpl in Hrest. subst i. exists st. by rewrite echoLoop_clients_S.
  - destruct Hrest as (-> & n & Hn & _).
    destruct (echoLoop_clients_visit fuel st done a rest Hall)
      as (st1 & n' & Hn' & Heq & Hall1 & Hrest1 & Hnet1 & Hkeep1 & Hup1
          & Hls1 & Hpe1 & Hml1).
    rewrite Hn in Hn'. injection Hn' as <-. rewrite Heq.
    destruct (IH fuel st1 _ (next n) Hall1 Hrest1)
      as (st' & Hrun & Hnet & Hls & Hpe & Hml & Hup); [simpl in Hf; lia|].
    exists st'. split; [done|]. split.
    { rewrite Hnet, Hnet1. simpl. by apply foldl_drain_in_ext. }
    split; [congruence|]. split; [congruence|]. split; [congruence|].
    intros Hal. destruct (Hup1 (Hal a ltac:(left))) as (Hh1 & Hc1 & Hcnt1).
    destruct Hup as (Hh & Hc & Hcnt).
    { intros b Hb. rewrite <- (Hal b) by by right.
      apply alive_ext; [by rewrite Hh1|].
      intros sd. rewrite Hnet1. apply drain_in_live. }
    repeat split; congruence.
Qed.

(** The accept phase, block by block: it leaves every block as it was,
    but for the block of the node it inserts, which was free. *)
Lemma echoLoop_accept_blocks st st' :
  echoLoop_accept st = Ok (tt, st') →
  ∀ b, heap st' !! b = heap st !! b ∨
       (heap st !! b = None ∧ clients st' = Some b).
Proof.
  unfold echoLoop_accept. erewrite bind_Ok by reflexivity.
  case_decide as Hcap; [|intros [= <-]; by left].
  erewrite bind_Ok by reflexivity.
  unfold accept at 1. erewrite bind_Ok by reflexivity.
  case_decide as Hr; [|intros [= <-]; by left].
  unfold Serial_print, Serial_println_int.
  do 2 (erewrite bind_Ok by reflexivity).
  match goal with |- addNewClient ?r ?s = _ → _ =>
    destruct (malloc s) as [[[c|] st3]| |] eqn:Hm; [| |done..];
    [destruct (addNewClient_some r _ _ _ Hm) as (st2 & Hrun & Hh & Hc & _)
    |rewrite (addNewClient_null r _ _ Hm)]
  end.
  - rewrite Hrun. intros [= <-] b.
    apply malloc_inv in Hm as (_ & _ & _ & _ & _ & _ & _ & Hfresh & _).
    rewrite Hh. simpl in *. destruct (decide (c = b)) as [<-|].
    + by right.
    + left. by rewrite lookup_insert_ne.
  - intros [= <-] b. left.
    apply malloc_inv in Hm as (_ & _ & _ & _ & _ & _ & _ & Hh). simpl.
    by rewrite Hh.
Qed.
End sessions.

(** ** The sessions after a pass *)

Section pass_sessions.
Implicit Types (st : State) (l : list addr) (a b : addr).

Lemma echoLoop_pass_sessions st l :
  nodes st = Some l →
  ∃ st', echoLoop_pass st = Ok (tt, st') ∧
    net st' = foldl (drain_in (heap st)) (net st) l ∧
    listenSocket st' = listenSocket st ∧ pending st' = pending st ∧
    mallocs st' = mallocs st ∧
    ((∀ a, a ∈ l → alive st a = true) →
       heap st' = heap st ∧ clients st' = clients st ∧
       clientCount st' = clientCount st).
Proof.
  intros Hl%nodes_chain. unfold echoLoop_pass.
  do 2 (erewrite bind_Ok by reflexivity).
  apply (echoLoop_clients_sessions l _ st []); [done..|].
  apply is_chain_bound in Hl. lia.
Qed.
End pass_sessions.

(** ** The calls of a pass *)

Section pass_calls.
Implicit Types (st : State) (l : list addr) (a b : addr).

(** The drain of a live node, with the calls it makes. *)
Lemma echoLoop_drain_calls i n st :
  heap st !! i = Some n →
  ∃ st1, echoLoop_drain (drain_budget i st) i st = Ok (tt, st1) ∧
    same_registry st st1 ∧
    net st1 = drain_in (heap st) (net st) i ∧
    trace st1 = trace st ++ drain_calls (heap st) (net st) i.
Proof.
  intros Hn. unfold drain_budget, session_of, drain_in, drain_calls.
  rewrite Hn. simpl.
  destruct (net st !! client_socket (client n)) as [s|] eqn:Hs.
  - destruct (echoLoop_drain_session i n (rxbuf s) s st (S (length (rxbuf s))))
      as (st1 & Hrun & Hsame & Hnet & Htr); [done..|lia|]. eauto 10.
  - destruct (echoLoop_drain_no_session i n st 1)
      as (st1 & Hrun & Hsame & Hnet & Htr); [done..|lia|]. eauto 10.
Qed.

(** One turn of the loop of the pass, with the events it appends. *)
Lemma echoLoop_clients_visit_calls fuel st done a rest :
  is_seg (heap st) (clients st) (done ++ a :: rest) NULL →
  ∃ st1 n,
    heap st !! a = Some n ∧
    echoLoop_clients (S fuel) (Some a) st = echoLoop_clients fuel (next n) st1 ∧
    is_seg (heap st1) (clients st1)
      ((if alive st a then done ++ [a] else done) ++ rest) NULL ∧
    is_seg (heap st1) (next n) rest NULL ∧
    net st1 = drain_in (heap st) (net st) a ∧
    (∀ b, b ∈ rest → heap st1 !! b = heap st !! b) ∧
    trace st1 =
      trace st ++ drain_calls (heap st) (net st) a
      ++ EvConnected a (alive st a)
      :: (if alive st a then [] else removal_events a (socket_of st a)).
Proof.
  intros Hall.
  pose proof (is_chain_NoDup _ _ _ Hall) as Hnd.
  apply NoDup_app in Hnd as (_ & Hdisj & [Ha Hnd]%NoDup_cons).
  pose proof Hall as Hrest. apply is_seg_app in Hrest as (r & _ & Hrest).
  destruct Hrest as (-> & n & Hn & Hnext).
  rewrite echoLoop_clients_S.
  rewrite (bind_Ok _ _ _ _ _ (load_live _ _ _ Hn)). cbv zeta.
  erewrite bind_Ok by reflexivity.
  destruct (echoLoop_drain_calls a n st Hn)
    as (st1 & Hdrain & Hsame1 & Hnet1 & Htr1).
  rewrite (bind_Ok _ _ _ _ _ Hdrain).
  pose proof Hsame1 as (Hh1 & Hc1 & Hcnt1 & Hls1 & Hpe1 & Hml1).
  assert (heap st1 !! a = Some n) as Hn1 by by rewrite Hh1.
  rewrite (bind_Ok _ _ _ _ _ (connected_live _ _ _ Hn1)).
  assert (alive st1 a = alive st a) as Hup.
  { apply alive_ext; [by rewrite Hh1|].
    intros sd. rewrite Hnet1. apply drain_in_live. }
  rewrite Hup.
  set (st2 := emit (EvConnected a (alive st a)) st1).
  destruct (alive st a) eqn:Halive; simpl negb; cbv iota.
  - erewrite bind_Ok by reflexivity.
    exists st2, n. split; [done|]. split; [done|]. simpl.
    rewrite Hh1, Hc1, Htr1, <- !app_assoc. by repeat split.
  - assert (heap st2 !! a = Some n) as Hn2 by done.
    set (st3 := emit (EvPrintln " disconnected.")
                  (emit (EvPrintInt (socket n))
                     (emit (EvPrint "Client on socket ") st2))).
    destruct (removeClient_present st3 done a rest)
      as (st4 & Hrm & Hnodes4 & Hcnt4 & Hgone4 & Hkeep4 & Hpay4 & Hls4
          & Hnet4 & Hpe4 & Hml4 & Htr4).
    { apply nodes_chain. simpl. by rewrite Hh1, Hc1. }
    erewrite bind_Ok; cycle 1.
    { rewrite (bind_Ok _ _ _ _ _ (load_live _ _ _ Hn2)).
      unfold Serial_print, Serial_print_int, Serial_println.
      do 3 (erewrite bind_Ok by reflexivity). exact Hrm. }
    assert (∀ b, b ∈ rest → heap st4 !! b = heap st !! b) as Hrest4.
    { intros b Hb. rewrite Hkeep4; [simpl; by rewrite Hh1| |].
      - intros ->. done.
      - intros Hbd. eapply Hdisj; [done | by right]. }
    exists st4, n. split; [done|]. split; [done|].
    split; [by apply nodes_chain|].
    split; [by eapply is_seg_ext|].
    split; [by rewrite Hnet4|]. split; [done|].
    rewrite Htr4. simpl. rewrite Htr1, <- !app_assoc.
    unfold socket_of. by rewrite Hn.
Qed.

(** The events of a pass over [l] depend on the state through the nodes of
    [l] and the liveness of the sessions only. *)
Lemma pass_events_ext st st' l : ∀ w,
  (∀ b, b ∈ l → heap st' !! b = heap st !! b) →
  (∀ sd, live <$> net st' !! sd = live <$> net st !! sd) →
  pass_events st' w l = pass_events st w l.
Proof.
  induction l as [|a l IH]; intros w Hh Hlive; [done|].
  cbn [pass_events].
  assert (heap st' !! a = heap st !! a) as Ha by (apply Hh; left).
  assert (alive st' a = alive st a) as ->
    by (apply alive_ext; [by rewrite Ha | done]).
  assert (socket_of st' a = socket_of st a) as ->
    by (apply socket_of_ext; by rewrite Ha).
  assert (drain_in (heap st') w a = drain_in (heap st) w a) as ->
    by (unfold drain_in; by rewrite Ha).
  assert (drain_calls (heap st') w a = drain_calls (heap st) w a) as ->
    by (unfold drain_calls; by rewrite Ha).
  rewrite IH; [done| |done]. intros b Hb. apply Hh. by right.
Qed.

(** The pass from any point of the chain appends exactly [pass_events]. *)
Lemma echoLoop_clients_calls : ∀ rest fuel st done i,
  is_seg (heap st) (clients st) (done ++ rest) NULL →
  is_seg (heap st) i rest NULL →
  length rest < fuel →
  ∃ st', echoLoop_clients fuel i st = Ok (tt, st') ∧
    trace st' = trace st ++ pass_events st (net st) rest.
Proof.
  induction rest as [|a rest IH]; intros fuel st done i Hall Hrest Hf;
    (destruct fuel as [|fuel]; [simpl in Hf; lia|]).
  - simpl in Hrest. subst i. exists st. rewrite echoLoop_clients_S.
    split; [done|]. simpl. by rewrite app_nil_r.
  - destruct Hrest as (-> & n & Hn & _).
    destruct (echoLoop_clients_visit_calls fuel st done a rest Hall)
      as (st1 & n' & Hn' & Heq & Hall1 & Hrest1 & Hnet1 & Hkeep1 & Htr1).
    rewrite Hn in Hn'. injection Hn' as <-. rewrite Heq.
    destruct (IH fuel st1 _ (next n) Hall1 Hrest1)
      as (st' & Hrun & Htr); [simpl in Hf; lia|].
    exists st'. split; [done|].
    rewrite Htr, Htr1. cbn [pass_events].
    rewrite (pass_events_ext st st1 rest (net st1) Hkeep1)
      by (intros sd; rewrite Hnet1; apply drain_in_live).
    rewrite Hnet1, <- !app_assoc. done.
Qed.

Lemma echoLoop_pass_calls st l :
  nodes st = Some l →
  ∃ st', echoLoop_pass st = Ok (tt, st') ∧
    trace st' = trace st ++ pass_events st (net st) l.
Proof.
  intros Hl%nodes_chain. unfold echoLoop_pass.
  do 2 (erewrite bind_Ok by reflexivity).
  apply (echoLoop_clients_calls l _ st []); [done..|].
  apply is_chain_bound in Hl. lia.
Qed.

(** A pass frees every node whose liveness check fails. *)
Lemma pass_trace_free up sd l t a :
  pass_trace up sd l t → a ∈ l → up a = false → EvFree a ∈ t.
Proof.
  induction 1 as [|a0 l d t Hd Hp IH]; intros Ha Hup;
    [by apply elem_of_nil in Ha|].
  apply elem_of_app. right. right. apply elem_of_app.
  apply elem_of_cons in Ha as [->|Ha].
  - left. rewrite Hup. unfold removal_events. do 3 right. left.
  - right. by apply IH.
Qed.
End pass_calls.

(** ** The properties of the server loop *)

Section loop_claims.
Implicit Types (st : State) (l : list addr) (c : addr).

Lemma no_failure_echo i rx : ∀ wf,
  forallb negb (take (length rx) wf) = true →
  echoed rx wf = rx ∧
  write_calls (drain_events i rx wf) = map (λ ch, (i, ch, 1%Z)) rx.
Proof.
  induction rx as [|ch rx IH]; intros wf Hok; [done|].
  assert (hd false wf = false ∧
          forallb negb (take (length rx) (tail wf)) = true) as [Hhd Htl].
  { destruct wf as [|[] wf]; simpl in *; try done. by rewrite take_nil. }
  destruct (IH _ Htl) as [IH1 IH2]. simpl. rewrite Hhd, IH1. simpl.
  split; [done|]. unfold write_calls in *. simpl. by rewrite IH2.
Qed.

Lemma echoLoop_capped st :
  size_ok st → (clientCount st ≤ MAX_CLIENTS)%Z →
  ∃ st', echoLoop st = Ok (tt, st') ∧ size_ok st' ∧
    (clientCount st' ≤ MAX_CLIENTS)%Z.
Proof.
  intros (l & Hl & Hcnt) Hcap.
  destruct (echoLoop_pass_chain st l Hl)
    as (st1 & ev1 & Hpass & Hn1 & Hcnt1 & _).
  destruct (echoLoop_accept_chain st1 _ Hn1)
    as (st2 & new & ev2 & Hacc & Hn2 & Hcnt2 & _ & Hnew & _).
  exists st2. split.
  { unfold echoLoop. by rewrite (bind_Ok _ _ _ _ _ Hpass). }
  pose proof (length_filter (λ a, alive st a = true) l) as Hle.
  fold (kept st l) in Hle.
  split.
  - eexists. split; [done|]. rewrite Hcnt2, length_app. lia.
  - destruct Hnew as [->|(c & -> & _ & Hlt & _)]; simpl in *; lia.
Qed.

(** C1 -- Echo fidelity.  Let [S] be the bytes received and unread on the
    session of node [i].  If none of the writes of the drain fails, the
    drain returns, the bytes written back on that same session are exactly
    [S], in arrival order (one successful [write] call per byte, and the
    session's output grows by [S]), nothing is left unread, and no other
    session and nothing of the registry is touched. *)
Theorem echo_fidelity i n s st :
  heap st !! i = Some n →
  net st !! client_socket (client n) = Some s →
  forallb negb (take (length (rxbuf s)) (wfail s)) = true →
  ∃ st' evs, echoLoop_drain (drain_budget i st) i st = Ok (tt, st') ∧
    txlog <$> net st' !! client_socket (client n) = Some (txlog s ++ rxbuf s) ∧
    rxbuf <$> net st' !! client_socket (client n) = Some [] ∧
    trace st' = trace st ++ evs ∧
    write_calls evs = map (λ ch, (i, ch, 1%Z)) (rxbuf s) ∧
    (∀ sd, sd ≠ client_socket (client n) → net st' !! sd = net st !! sd) ∧
    same_registry st st'.
Proof.
  intros Hn Hs Hok.
  destruct (echoLoop_drain_session i n (rxbuf s) s st (S (length (rxbuf s))))
    as (st' & Hrun & Hsame & Hnet & Htr); [done..|lia|].
  destruct (no_failure_echo i _ _ Hok) as [Hecho Hwr].
  exists st', (drain_events i (rxbuf s) (wfail s)). split.
  { unfold drain_budget, session_of. rewrite Hn. simpl. by rewrite Hs. }
  rewrite Hnet, lookup_insert_eq. simpl. rewrite Hecho.
  repeat (split; [done|]). split; [|done].
  intros sd Hsd. by rewrite lookup_insert_ne.
Qed.

Lemma echo_fidelity_witness :
  (heap three_clients !! 1%positive = Some (node 4 NULL) ∧
   net three_clients !! 4%Z = Some (mkSession ["h"; "i"; x0a]%byte [] [] true)) ∧
  ∃ st', echoLoop_drain (drain_budget 1 three_clients) 1 three_clients
           = Ok (tt, st') ∧
    txlog <$> net st' !! 4%Z = Some ["h"; "i"; x0a]%byte.
Proof.
  split; [split; reflexivity|].
  destruct (echo_fidelity 1 (node 4 NULL)
              (mkSession ["h"; "i"; x0a]%byte [] [] true) three_clients
              eq_refl eq_refl eq_refl) as (st' & evs & Hrun & Htx & _).
  exists st'. split; [exact Hrun | exact Htx].
Defined.

(** C3 -- Concurrency ceiling.  In every state the server reaches from the
    empty registry, the count is the number of nodes and is at most
    [MAX_CLIENTS]; the next tick returns and keeps the count within the
    cap; and when the count is [MAX_CLIENTS] after the pass over the
    clients, the accept phase changes nothing at all: no [accept] call, no
    insert, no node removed. *)
Theorem concurrency_ceiling st :
  reachable st →
  (clientCount st ≤ MAX_CLIENTS)%Z ∧
  (∃ l, nodes st = Some l ∧ clientCount st = Z.of_nat (length l)) ∧
  (∃ st', echoLoop st = Ok (tt, st') ∧ (clientCount st' ≤ MAX_CLIENTS)%Z) ∧
  (∀ st1, echoLoop_pass st = Ok (tt, st1) →
          clientCount st1 = MAX_CLIENTS →
          echoLoop_accept st1 = Ok (tt, st1) ∧ echoLoop st = Ok (tt, st1)).
Proof.
  intros Hr.
  assert (size_ok st ∧ (clientCount st ≤ MAX_CLIENTS)%Z) as [Hsz Hcap].
  { induction Hr as [st Hi|st st' _ [IH1 IH2] (Hh & Hc & Hn & _)
                    |st st' _ [IH1 IH2] Hrun].
    - split; [by apply initial_size_ok|].
      destruct Hi as (_ & ->). unfold MAX_CLIENTS. lia.
    - split; [|by rewrite Hn]. destruct IH1 as (l & Hl & Hcnt).
      exists l. unfold nodes in *. by rewrite Hh, Hc, Hn.
    - destruct (echoLoop_capped st IH1 IH2) as (st'' & Hrun' & ? & ?).
      rewrite Hrun in Hrun'. by injection Hrun' as <-. }
  split; [done|]. split; [done|]. split.
  { destruct (echoLoop_capped st Hsz Hcap) as (st' & ? & _ & ?). eauto. }
  intros st1 Hpass Hfull.
  assert (echoLoop_accept st1 = Ok (tt, st1)) as Hacc.
  { unfold echoLoop_accept. erewrite bind_Ok by reflexivity.
    by rewrite decide_False by lia. }
  split; [done|]. unfold echoLoop. by rewrite (bind_Ok _ _ _ _ _ Hpass).
Qed.

Lemma concurrency_ceiling_witness :
  reachable lobby4 ∧
  clientCount lobby4 = MAX_CLIENTS ∧
  nodes lobby4 = Some [2; 3; 1]%positive ∧
  pending lobby4 = [8%Z] ∧
  ∃ st1, echoLoop_pass lobby4 = Ok (tt, st1) ∧
    clientCount st1 = MAX_CLIENTS ∧
    echoLoop_accept st1 = Ok (tt, st1) ∧
    echoLoop lobby4 = Ok (tt, st1) ∧
    nodes st1 = Some [2; 3; 1]%positive ∧
    pending st1 = [8%Z].
Proof.
  assert (reachable lobby4) as Hr.
  { apply (reachable_tick lobby3); [|exact lobby_tick4].
    apply (reachable_tick lobby2); [|exact lobby_tick3].
    apply (reachable_tick lobby1); [|exact lobby_tick2].
    apply (reachable_tick lobby); [|exact lobby_tick1].
    apply reachable_initial. split; reflexivity. }
  split; [exact Hr|].
  split; [vm_compute; reflexivity|].
  split; [vm_compute; reflexivity|].
  split; [vm_compute; reflexivity|].
  destruct (concurrency_ceiling lobby4 Hr) as (_ & _ & _ & Hfull).
  assert (echoLoop_pass lobby4 = Ok (tt, state_after echoLoop_pass lobby4))
    as Hpass by (vm_compute; reflexivity).
  assert (clientCount (state_after echoLoop_pass lobby4) = MAX_CLIENTS)
    as Hcnt by (vm_compute; reflexivity).
  destruct (Hfull _ Hpass Hcnt) as [Hacc Htick].
  exists (state_after echoLoop_pass lobby4).
  split; [exact Hpass|]. split; [exact Hcnt|]. split; [exact Hacc|].
  split; [exact Htick|]. split; vm_compute; reflexivity.
Defined.

Lemma kept_elem st l a : a ∈ kept st l ↔ alive st a = true ∧ a ∈ l.
Proof. unfold kept. by rewrite list_elem_of_filter. Qed.

Lemma world_step_nodes st st' : world_step st st' → nodes st' = nodes st.
Proof. intros (Hh & Hc & _). unfold nodes. by rewrite Hh, Hc. Qed.

(** A pass visits the nodes of the registry, head first. *)
Lemma echoLoop_pass_visits st l :
  nodes st = Some l →
  ∃ st' evs, echoLoop_pass st = Ok (tt, st') ∧
    trace st' = trace st ++ evs ∧ (liveness_checks evs).*1 = l.
Proof.
  intros Hl. destruct (echoLoop_pass_chain st l Hl)
    as (st' & evs & Hrun & _ & _ & Htr & Hshape & _).
  exists st', evs. split; [done|]. split; [done|].
  apply pass_trace_checks in Hshape as [-> _].
  rewrite <- list_fmap_compose. apply list_fmap_id.
Qed.

(** C5 -- Disconnect eviction.  One tick on the registry [l] returns, and
    the trace of its pass is, node after node in chain order, the drain of
    the node (calls of [available], [read], [write] only), then the one
    liveness check of the node, then its removal when the check failed: so
    each node is checked exactly once, right after its drain.  A node
    whose check failed is out of the chain and its storage released when
    the pass ends; the accept phase adds at most a newly allocated node, and
    every later pass visits exactly the nodes then in the chain. *)
Theorem disconnect_eviction st l :
  nodes st = Some l →
  ∃ st1 st2 ev1 ev2 new,
    echoLoop_pass st = Ok (tt, st1) ∧
    echoLoop_accept st1 = Ok (tt, st2) ∧
    echoLoop st = Ok (tt, st2) ∧
    trace st2 = trace st ++ ev1 ++ ev2 ∧
    pass_trace (alive st) (socket_of st) l ev1 ∧
    NoDup l ∧
    liveness_checks (ev1 ++ ev2) = map (λ a, (a, alive st a)) l ∧
    nodes st1 = Some (kept st l) ∧
    (∀ a, a ∈ l → alive st a = false →
          (a ∉ kept st l) ∧ heap st1 !! a = None) ∧
    (∀ a, a ∈ l → alive st a = true → a ∈ kept st l) ∧
    nodes st2 = Some (new ++ kept st l) ∧
    (∀ c, c ∈ new → heap st1 !! c = None) ∧
    (∀ st3, world_step st2 st3 →
       ∃ st4 ev3, echoLoop_pass st3 = Ok (tt, st4) ∧
         trace st4 = trace st3 ++ ev3 ∧
         (liveness_checks ev3).*1 = new ++ kept st l).
Proof.
  intros Hl.
  destruct (echoLoop_pass_chain st l Hl)
    as (st1 & ev1 & Hpass & Hn1 & _ & Htr1 & Hshape & Hgone & _).
  destruct (echoLoop_accept_chain st1 _ Hn1)
    as (st2 & new & ev2 & Hacc & Hn2 & _ & Htr2 & Hnew & _ & Hchk2 & _).
  exists st1, st2, ev1, ev2, new.
  split; [done|]. split; [done|].
  split; [unfold echoLoop; by rewrite (bind_Ok _ _ _ _ _ Hpass)|].
  split; [by rewrite Htr2, Htr1, <- app_assoc|].
  split; [done|].
  split; [by eapply is_chain_NoDup, nodes_chain|].
  split.
  { rewrite liveness_checks_app, Hchk2, app_nil_r.
    by apply pass_trace_checks in Hshape as [-> _]. }
  split; [done|]. split.
  { intros a Ha Hdead. split; [|by apply Hgone].
    intros [Hup _]%kept_elem. congruence. }
  split; [intros a Ha Hup; by apply kept_elem|].
  split; [done|]. split.
  { intros c Hc. destruct Hnew as [->|(c' & -> & Hfresh & _)].
    - by apply elem_of_nil in Hc.
    - by apply list_elem_of_singleton in Hc as ->. }
  intros st3 Hw. apply echoLoop_pass_visits.
  by rewrite (world_step_nodes _ _ Hw).
Qed.

Lemma disconnect_eviction_witness :
  nodes three_clients = Some [3; 2; 1]%positive ∧
  ∃ st2, echoLoop three_clients = Ok (tt, st2) ∧
    liveness_checks (drop (length (trace three_clients)) (trace st2)) =
      [(3, true); (2, false); (1, true)]%positive.
Proof.
  split; [reflexivity|].
  destruct (disconnect_eviction three_clients [3; 2; 1]%positive eq_refl)
    as (st1 & st2 & ev1 & ev2 & new & _ & _ & Hrun & Htr & _ & _ & Hchk & _).
  exists st2. split; [exact Hrun|].
  rewrite Htr. simpl. exact Hchk.
Defined.

(** C8 -- Insert at head, traversal order.  In a registry, where the
    count is the number of nodes of the chain and, being an [int], is below
    [INT_MAX], when the allocation succeeds [addNewClient] returns with the
    new node, carrying the socket, as the head of the chain and linked to
    the former head, and the count one more, which is again the number of
    nodes; the traversal of the registry is then the new node followed by
    the former nodes in their former order, and that is the order in which
    the pass of the server loop visits them: most recently inserted
    first. *)
Theorem insert_at_head socket st st1 c l :
  nodes st = Some l →
  clientCount st = Z.of_nat (length l) →
  (clientCount st < INT_MAX)%Z →
  malloc st = Ok (Some c, st1) →
  ∃ st', addNewClient socket st = Ok (tt, st') ∧
    clients st' = Some c ∧
    heap st' !! c = Some (mkClientList socket (Client socket) (clients st)) ∧
    clientCount st' = (clientCount st + 1)%Z ∧
    nodes st' = Some (c :: l) ∧
    clientCount st' = Z.of_nat (length (c :: l)) ∧
    (clientCount st' ≤ INT_MAX)%Z ∧
    ∃ st'' evs, echoLoop_pass st' = Ok (tt, st'') ∧
      trace st'' = trace st' ++ evs ∧
      (liveness_checks evs).*1 = c :: l.
Proof.
  intros Hl Hsize Hint Hm.
  destruct (addNewClient_some socket _ _ _ Hm)
    as (st' & Hrun & Hh & Hc & Hcnt & _).
  destruct (addNewClient_nodes socket _ _ _ l Hm Hl) as (st'' & Hrun' & Hn).
  rewrite Hrun in Hrun'. injection Hrun' as <-.
  exists st'. repeat (split; [done|]).
  split; [rewrite Hh; apply lookup_insert_eq|].
  repeat (split; [done|]).
  split; [rewrite Hcnt, Hsize; simpl; lia|]. split; [lia|].
  by apply echoLoop_pass_visits.
Qed.

Lemma insert_at_head_witness :
  (nodes three_clients = Some [3; 2; 1]%positive ∧
   clientCount three_clients = Z.of_nat (length [3; 2; 1]%positive) ∧
   (clientCount three_clients < INT_MAX)%Z ∧
   ∃ st1, malloc three_clients = Ok (Some 9%positive, st1)) ∧
  ∃ st', addNewClient 7 three_clients = Ok (tt, st') ∧
    nodes st' = Some [9; 3; 2; 1]%positive ∧ clientCount st' = 4%Z.
Proof.
  assert (clientCount three_clients < INT_MAX)%Z as Hint by reflexivity.
  split.
  { split; [reflexivity|]. split; [reflexivity|]. split; [exact Hint|].
    eexists; reflexivity. }
  destruct (insert_at_head 7 three_clients _ 9%positive [3; 2; 1]%positive
              eq_refl eq_refl Hint eq_refl)
    as (st' & Hrun & _ & _ & Hcnt & Hn & _).
  exists st'. split; [exact Hrun|]. split; [exact Hn | exact Hcnt].
Defined.

(** C9 -- One accept per tick, after the full pass.  One tick on the
    registry [l] returns.  Its trace is that of the pass followed by that
    of the accept phase.  The pass drains and checks every node of [l], in
    chain order: its events are exactly [pass_events], the drain of each
    node (every unread byte read and written back), its liveness check
    and, when that fails, its removal; it calls [accept] never, and it
    leaves the session of every node drained.  The accept phase calls no
    client object and touches no session.  The whole tick calls [accept] at
    most once, takes at most one answer from the pending connections
    however many there are, and adds at most one node. *)
Theorem one_accept_per_tick st l :
  nodes st = Some l →
  ∃ st1 st2 ev1 ev2 new,
    echoLoop_pass st = Ok (tt, st1) ∧
    echoLoop_accept st1 = Ok (tt, st2) ∧
    echoLoop st = Ok (tt, st2) ∧
    trace st2 = trace st ++ ev1 ++ ev2 ∧
    pass_trace (alive st) (socket_of st) l ev1 ∧
    (liveness_checks ev1).*1 = l ∧
    accept_calls ev1 = [] ∧
    forallb (λ e, negb (is_client_call e)) ev2 = true ∧
    length (accept_calls (ev1 ++ ev2)) ≤ 1 ∧
    nodes st2 = Some (new ++ kept st l) ∧
    length new ≤ 1 ∧
    (clientCount st2 ≤ clientCount st1 + 1)%Z ∧
    (pending st2 = pending st ∨ pending st2 = tail (pending st)) ∧
    trace st1 = trace st ++ ev1 ∧
    ev1 = pass_events st (net st) l ∧
    net st1 = foldl (drain_in (heap st)) (net st) l ∧
    (∀ a n s, a ∈ l → heap st !! a = Some n →
       net st !! client_socket (client n) = Some s →
       net st1 !! client_socket (client n) = Some (drained s)) ∧
    (∀ sd, sd ∉ served st l → net st1 !! sd = net st !! sd) ∧
    net st2 = net st1.
Proof.
  intros Hl.
  destruct (echoLoop_pass_chain st l Hl)
    as (st1 & ev1 & Hpass & Hn1 & _ & Htr1 & Hshape & _ & _ & _ & _ & Hpe1 & _).
  destruct (echoLoop_accept_chain st1 _ Hn1)
    as (st2 & new & ev2 & Hacc & Hn2 & Hcnt2 & Htr2 & Hnew & Hac2 & _ & Hcl2
        & _ & Hnet2 & Hpe2).
  destruct (echoLoop_pass_calls st l Hl) as (st1' & Hpass' & Hcalls).
  rewrite Hpass in Hpass'. injection Hpass' as <-.
  destruct (echoLoop_pass_sessions st l Hl) as (st1' & Hpass' & Hnet1 & _).
  rewrite Hpass in Hpass'. injection Hpass' as <-.
  exists st1, st2, ev1, ev2, new.
  split; [done|]. split; [done|].
  split; [unfold echoLoop; by rewrite (bind_Ok _ _ _ _ _ Hpass)|].
  split; [by rewrite Htr2, Htr1, <- app_assoc|].
  split; [done|].
  pose proof (pass_trace_checks _ _ _ _ Hshape) as [Hchk Hac1].
  split.
  { rewrite Hchk, <- list_fmap_compose. apply list_fmap_id. }
  split; [done|]. split; [done|]. split.
  { rewrite accept_calls_app, Hac1, Hac2. case_decide; simpl; lia. }
  split; [done|].
  assert (length new ≤ 1) as Hlen.
  { destruct Hnew as [->|(c & -> & _)]; simpl; lia. }
  split; [done|]. split; [lia|].
  split; [rewrite Hpe2, Hpe1; case_decide; [by right | by left]|].
  split; [done|].
  split; [rewrite Htr1 in Hcalls; by apply app_inv_head in Hcalls|].
  split; [done|]. split; [|split; [|done]].
  - intros a n s Ha Hn Hs. rewrite Hnet1.
    rewrite foldl_drain_in_served; [by rewrite Hs|].
    apply list_elem_of_omap. exists a. split; [done|]. by rewrite Hn.
  - intros sd Hsd. rewrite Hnet1. by apply foldl_drain_in_unserved.
Qed.

Lemma one_accept_per_tick_witness :
  nodes three_clients = Some [3; 2; 1]%positive ∧
  ∃ st1 st2 ev1 ev2,
    echoLoop_pass three_clients = Ok (tt, st1) ∧
    echoLoop three_clients = Ok (tt, st2) ∧
    trace st2 = trace three_clients ++ ev1 ++ ev2 ∧
    ev1 = pass_events three_clients (net three_clients) [3; 2; 1]%positive ∧
    accept_calls ev1 = [] ∧
    net st1 !! 4%Z = Some (mkSession [] ["h"; "i"; x0a]%byte [] true) ∧
    net st2 = net st1 ∧
    accept_calls (drop (length (trace three_clients)) (trace st2)) = [7%Z] ∧
    pending st2 = [8%Z].
Proof.
  split; [reflexivity|].
  destruct (one_accept_per_tick three_clients [3; 2; 1]%positive eq_refl)
    as (st1 & st2 & ev1 & ev2 & new & Hpass & _ & Hrun & Htr & _ & _ & Hac1
        & _ & _ & _ & _ & _ & _ & _ & Hev1 & _ & Hdrained & _ & Hnet2).
  exists st1, st2, ev1, ev2.
  split; [exact Hpass|]. split; [exact Hrun|]. split; [exact Htr|].
  split; [exact Hev1|]. split; [exact Hac1|].
  split.
  { apply (Hdrained 1%positive (node 4 NULL)
             (mkSession ["h"; "i"; x0a]%byte [] [] true));
      [do 2 right; left | reflexivity | reflexivity]. }
  split; [exact Hnet2|].
  assert (st2 = state_after echoLoop three_clients) as ->
    by (symmetry; exact (state_after_run _ _ _ Hrun)).
  split; vm_compute; reflexivity.
Defined.
End loop_claims.

(** * Further properties *)

(** ** Sessions and ticks *)

Section tick_sessions.
Implicit Types (st : State) (l : list addr) (a b : addr).

(** X1 -- No cross-talk.  One tick on the registry [l] returns; every
    session some node of [l] is attached to has been drained (its unread
    bytes consumed, those whose write succeeded appended to its own
    output), and every other session is exactly as it was. *)
Theorem tick_sessions st l :
  nodes st = Some l →
  ∃ st', echoLoop st = Ok (tt, st') ∧
    (∀ sd, sd ∈ served st l → net st' !! sd = drained <$> net st !! sd) ∧
    (∀ sd, sd ∉ served st l → net st' !! sd = net st !! sd).
Proof.
  intros Hl.
  destruct (echoLoop_pass_sessions st l Hl) as (st1 & Hpass & Hnet1 & _).
  destruct (echoLoop_pass_chain st l Hl) as (st1' & ev1 & Hpass' & Hn1 & _).
  rewrite Hpass in Hpass'. injection Hpass' as <-.
  destruct (echoLoop_accept_chain st1 _ Hn1)
    as (st2 & new & ev2 & Hacc & _ & _ & _ & _ & _ & _ & _ & _ & Hnet2 & _).
  exists st2. split.
  { unfold echoLoop. by rewrite (bind_Ok _ _ _ _ _ Hpass). }
  rewrite Hnet2, Hnet1. split; intros sd Hsd.
  - by apply foldl_drain_in_served.
  - by apply foldl_drain_in_unserved.
Qed.

Lemma tick_sessions_witness :
  nodes three_clients = Some [3; 2; 1]%positive ∧
  ∃ st', echoLoop three_clients = Ok (tt, st') ∧
    net st' !! 4%Z = drained <$> net three_clients !! 4%Z.
Proof.
  split; [reflexivity|].
  destruct (tick_sessions three_clients [3; 2; 1]%positive eq_refl)
    as (st' & Hrun & Hin & _).
  exists st'. split; [exact Hrun|]. apply Hin.
  change (4%Z ∈ [6; 5; 4]%Z). do 2 right. left.
Defined.

Lemma echoLoop_accept_refused st :
  (clientCount st >= MAX_CLIENTS)%Z ∨ (hd (-1) (pending st) ≤ -1)%Z →
  ∃ st', echoLoop_accept st = Ok (tt, st') ∧
    heap st' = heap st ∧ clients st' = clients st ∧
    clientCount st' = clientCount st ∧ net st' = net st ∧
    mallocs st' = mallocs st ∧ listenSocket st' = listenSocket st.
Proof.
  intros Hidle. unfold echoLoop_accept. erewrite bind_Ok by reflexivity.
  case_decide as Hcap; [|by exists st].
  destruct Hidle as [?|Hr]; [lia|].
  erewrite bind_Ok by reflexivity.
  unfold accept at 1. erewrite bind_Ok by reflexivity.
  rewrite decide_False by lia. eexists. split; [done|]. done.
Qed.

(** X2 -- An idle tick changes nothing.  When every client is connected
    and has sent nothing, and no connection is accepted (the registry is
    full, or [accept] answers a negative value), the tick returns with the
    heap, the head, the count, the sessions and the allocator as they
    were. *)
Theorem idle_tick st l :
  nodes st = Some l →
  (∀ a, a ∈ l → ∃ s, session_of a st = Some s ∧ live s = true ∧ rxbuf s = []) →
  (clientCount st >= MAX_CLIENTS)%Z ∨ (hd (-1) (pending st) ≤ -1)%Z →
  ∃ st', echoLoop st = Ok (tt, st') ∧
    heap st' = heap st ∧ clients st' = clients st ∧
    clientCount st' = clientCount st ∧ net st' = net st ∧
    mallocs st' = mallocs st.
Proof.
  intros Hl Hidle Hnone.
  destruct (echoLoop_pass_sessions st l Hl)
    as (st1 & Hpass & Hnet1 & _ & Hpe1 & Hml1 & Hup).
  destruct Hup as (Hh1 & Hc1 & Hcnt1).
  { intros a Ha. destruct (Hidle a Ha) as (s & Hs & Hlive & _).
    unfold alive. by rewrite Hs. }
  destruct (echoLoop_accept_refused st1)
    as (st2 & Hacc & Hh2 & Hc2 & Hcnt2 & Hnet2 & Hml2 & _).
  { by rewrite Hcnt1, Hpe1. }
  exists st2. split.
  { unfold echoLoop. by rewrite (bind_Ok _ _ _ _ _ Hpass). }
  repeat split; try congruence.
  rewrite Hnet2, Hnet1. apply map_eq. intros sd.
  destruct (decide (sd ∈ served st l)) as [Hin|Hout].
  - rewrite (foldl_drain_in_served _ _ _ _ Hin).
    unfold served in Hin. apply list_elem_of_omap in Hin as (a & Ha & Hsd).
    destruct (Hidle a Ha) as (s & Hs & _ & Hrx). unfold session_of in Hs.
    destruct (heap st !! a) as [n|]; simpl in *; [|done].
    injection Hsd as <-. rewrite Hs. simpl. by rewrite drained_empty.
  - by apply foldl_drain_in_unserved.
Qed.

Lemma idle_tick_witness :
  (nodes idle_server = Some [2; 1]%positive ∧
   (hd (-1) (pending idle_server) ≤ -1)%Z) ∧
  ∃ st', echoLoop idle_server = Ok (tt, st') ∧
    heap st' = heap idle_server ∧ net st' = net idle_server.
Proof.
  split; [split; [reflexivity | vm_compute; discriminate]|].
  destruct (idle_tick idle_server [2; 1]%positive eq_refl)
    as (st' & Hrun & Hh & _ & _ & Hnet & _).
  - intros a Ha. apply elem_of_cons in Ha as [->|Ha].
    { eexists. split; [reflexivity|]. split; reflexivity. }
    apply elem_of_cons in Ha as [->|Ha].
    { eexists. split; [reflexivity|]. split; reflexivity. }
    by apply elem_of_nil in Ha.
  - right. vm_compute. discriminate.
  - exists st'. split; [exact Hrun|]. split; [exact Hh | exact Hnet].
Defined.
End tick_sessions.

(** ** Ownership of the nodes *)

Section ownership.
Implicit Types (st : State) (l : list addr) (a b c : addr).

Lemma payload_is_Some (h h' : gmap positive ClientList) b :
  payload <$> h' !! b = payload <$> h !! b →
  is_Some (h' !! b) ↔ is_Some (h !! b).
Proof.
  destruct (h' !! b), (h !! b); simpl; intros Hp; try done;
    split; intros [? ?]; eauto; done.
Qed.

Lemma apply_op_owned o st :
  owned st → ∃ st', apply_op o st = Ok (tt, st') ∧ owned st'.
Proof.
  intros (l & Hl & Hown & Hcnt). destruct o as [socket|[c|]]; unfold apply_op.
  - destruct (malloc st) as [[[c|] st1]| |] eqn:Hm; [| |done..].
    + destruct (addNewClient_some socket _ _ _ Hm)
        as (st' & Hrun & Hh & _ & Hcnt' & _).
      destruct (addNewClient_nodes socket _ _ _ l Hm Hl) as (st'' & Hrun' & Hn).
      rewrite Hrun in Hrun'. injection Hrun' as <-.
      exists st'. split; [done|]. exists (c :: l). split; [done|]. split.
      * intros b. rewrite Hh, elem_of_cons, <- Hown.
        destruct (decide (c = b)) as [<-|].
        { rewrite lookup_insert_eq. split; eauto. }
        { rewrite lookup_insert_ne by done. split; [by right|].
          by intros [?|?]. }
      * rewrite Hcnt', Hcnt. simpl. lia.
    + rewrite (addNewClient_null socket _ _ Hm). eexists. split; [done|].
      apply malloc_inv in Hm as (Hc & Hn & _ & _ & _ & _ & _ & Hh).
      exists l. unfold nodes in *. simpl. by rewrite Hh, Hc, Hn.
  - destruct (decide (c ∈ l)) as [Hin|Hout].
    + apply list_elem_of_split in Hin as (l1 & l2 & ->).
      pose proof Hl as Hnd. apply nodes_chain, is_chain_NoDup in Hnd.
      apply NoDup_app in Hnd as (_ & Hdisj & [Hc2 _]%NoDup_cons).
      destruct (removeClient_present st l1 c l2 Hl)
        as (st' & Hrun & Hn & Hcnt' & Hgone & _ & Hpay & _).
      exists st'. split; [done|]. exists (l1 ++ l2). split; [done|]. split.
      * intros b. split.
        { intros Hb. destruct (decide (b = c)) as [->|Hne].
          { rewrite Hgone in Hb. by destruct Hb. }
          apply (payload_is_Some _ _ _ (Hpay b Hne)), Hown in Hb.
          apply elem_of_app in Hb as [?|[?|?]%elem_of_cons]; [|done|];
            apply elem_of_app; [by left | by right]. }
        { intros Hb. eapply is_seg_live; [by apply nodes_chain|done]. }
      * rewrite Hcnt', Hcnt, !length_app. simpl. lia.
    + rewrite (removeClient_absent st l c Hl Hout). eexists. split; [done|].
      by exists l.
  - eexists. split; [done|]. by exists l.
Qed.

Lemma echoLoop_owned st :
  owned st → ∃ st', echoLoop st = Ok (tt, st') ∧ owned st'.
Proof.
  intros (l & Hl & Hown & Hcnt).
  destruct (echoLoop_pass_chain st l Hl)
    as (st1 & ev1 & Hpass & Hn1 & Hcnt1 & _ & _ & Hgone & Hpay & _).
  destruct (echoLoop_accept_chain st1 _ Hn1)
    as (st2 & new & ev2 & Hacc & Hn2 & Hcnt2 & _ & Hnew & _).
  pose proof (echoLoop_accept_blocks _ _ Hacc) as Hblocks.
  exists st2. split.
  { unfold echoLoop. by rewrite (bind_Ok _ _ _ _ _ Hpass). }
  assert (∀ b, is_Some (heap st1 !! b) ↔ b ∈ kept st l) as Hown1.
  { intros b. split.
    - intros Hb. destruct (Hpay b) as [Hnone|Hp].
      { rewrite Hnone in Hb. by destruct Hb. }
      apply payload_is_Some in Hp. apply Hp, Hown in Hb.
      unfold kept. apply list_elem_of_filter. split; [|done].
      destruct (alive st b) eqn:Hal; [done|].
      rewrite (Hgone b Hb Hal) in Hp. destruct Hp as [_ Hp].
      destruct Hp as [? ?]; [by apply Hown|done].
    - intros Hb. eapply is_seg_live; [by apply nodes_chain|done]. }
  exists (new ++ kept st l). split; [done|]. split.
  - intros b. apply nodes_chain in Hn2. split.
    + intros Hb. destruct (Hblocks b) as [Heq|[_ Hhd]].
      * rewrite Heq in Hb. apply elem_of_app. right. by apply Hown1.
      * rewrite Hhd in Hn2. destruct (new ++ kept st l) as [|x xs]; [done|].
        destruct Hn2 as ([= <-] & _). left.
    + intros Hb. by eapply is_seg_live.
  - pose proof (length_filter (λ a, alive st a = true) l) as Hle.
    fold (kept st l) in Hle. rewrite Hcnt2, length_app. lia.
Qed.

Lemma initial_owned st : heap st = ∅ → initial st → owned st.
Proof.
  intros Hh (Hc & Hn). exists []. split; [apply nodes_chain; by rewrite Hc|].
  split; [|done]. intros b. rewrite Hh, lookup_empty. split.
  - by intros [? ?].
  - by intros ?%elem_of_nil.
Qed.

(** X3 -- The registry owns its nodes.  Starting with no block allocated
    and an empty registry, after any sequence of [addNewClient] and
    [removeClient] calls the live blocks are exactly the nodes of the chain:
    no node is leaked, none is freed while still linked. *)
Theorem registry_owns_nodes (ops : list registry_op) st :
  heap st = ∅ → initial st →
  ∃ st', apply_ops ops st = Ok (tt, st') ∧
    ∃ l, nodes st' = Some l ∧ ∀ b, is_Some (heap st' !! b) ↔ b ∈ l.
Proof.
  intros Hh Hi. pose proof (initial_owned st Hh Hi) as Hown. clear Hh Hi.
  revert st Hown. induction ops as [|o ops IH]; intros st Hown.
  - exists st. split; [done|]. destruct Hown as (l & ? & ? & _). eauto.
  - destruct (apply_op_owned o st Hown) as (st1 & Hrun & Hown1).
    destruct (IH st1 Hown1) as (st' & Hrun' & Hl).
    exists st'. split; [|done].
    change (apply_ops (o :: ops)) with (apply_op o;; apply_ops ops).
    by rewrite (bind_Ok _ _ _ _ _ Hrun).
Qed.

Lemma registry_owns_nodes_witness :
  (heap empty_server = ∅ ∧ initial empty_server) ∧
  ∃ st', apply_ops [Insert 4; Insert 5; Remove (Some 1%positive)]
           empty_server = Ok (tt, st') ∧
    ∃ l, nodes st' = Some l ∧ ∀ b, is_Some (heap st' !! b) ↔ b ∈ l.
Proof.
  split; [split; [reflexivity | split; reflexivity]|].
  apply (registry_owns_nodes
           [Insert 4; Insert 5; Remove (Some 1%positive)] empty_server).
  - reflexivity.
  - split; reflexivity.
Defined.

(** X4 -- The server leaks no node.  In every state a server started with
    no block allocated and an empty registry passes through, the live
    blocks are exactly the nodes of the chain, their number is the count,
    and the next tick returns. *)
Theorem server_owns_nodes st0 st :
  heap st0 = ∅ → initial st0 → run_from st0 st →
  (∃ l, nodes st = Some l ∧ (∀ b, is_Some (heap st !! b) ↔ b ∈ l) ∧
        clientCount st = Z.of_nat (length l)) ∧
  ∃ st', echoLoop st = Ok (tt, st').
Proof.
  intros Hh Hi Hrun.
  assert (owned st) as Hown.
  { induction Hrun as [|st st' _ IH (Hh' & Hc' & Hn' & _)|st st' _ IH Htick].
    - by apply initial_owned.
    - destruct IH as (l & Hl & Hown & Hcnt). exists l.
      unfold nodes in *. by rewrite Hh', Hc', Hn'.
    - destruct (echoLoop_owned st IH) as (st'' & Htick' & Hown).
      rewrite Htick in Htick'. by injection Htick' as <-. }
  split; [done|].
  destruct (echoLoop_owned st Hown) as (st' & Htick & _). eauto.
Qed.

Lemma server_owns_nodes_witness :
  (heap lobby = ∅ ∧ initial lobby ∧ run_from lobby lobby4) ∧
  (nodes lobby4 = Some [2; 3; 1]%positive ∧ EvFree 2 ∈ trace lobby3) ∧
  (∃ l, nodes lobby4 = Some l ∧ (∀ b, is_Some (heap lobby4 !! b) ↔ b ∈ l) ∧
        clientCount lobby4 = Z.of_nat (length l)) ∧
  ∃ st', echoLoop lobby4 = Ok (tt, st').
Proof.
  assert (run_from lobby lobby4) as Hrun.
  { apply (run_tick lobby lobby3); [|exact lobby_tick4].
    apply (run_tick lobby lobby2); [|exact lobby_tick3].
    apply (run_tick lobby lobby1); [|exact lobby_tick2].
    apply (run_tick lobby lobby); [|exact lobby_tick1].
    apply run_start. }
  split; [split; [reflexivity | split; [split; reflexivity | exact Hrun]]|].
  split.
  { split; [vm_compute; reflexivity|]. vm_compute.
    repeat first [apply list_elem_of_here | apply list_elem_of_further]. }
  exact (server_owns_nodes lobby lobby4 eq_refl (conj eq_refl eq_refl) Hrun).
Defined.
End ownership.

(** ** How the registry operations compose *)

Section composition.
Implicit Types (st : State) (l : list addr) (a b c : addr).

Lemma free_live c n st :
  heap st !! c = Some n →
  free c st = Ok (tt, emit (EvFree c) (set_heap (delete c (heap st)) st)).
Proof. unfold free. by intros ->. Qed.

(** X5 -- Insert then remove is a round trip.  Removing the node
    [addNewClient] has just inserted gives back the heap, the head and the
    count there were before the insert, and touches no session. *)
Theorem insert_remove_roundtrip socket st st1 c :
  malloc st = Ok (Some c, st1) →
  ∃ st', (addNewClient socket;; removeClient (Some c)) st = Ok (tt, st') ∧
    heap st' = heap st ∧ clients st' = clients st ∧
    clientCount st' = clientCount st ∧ net st' = net st.
Proof.
  intros Hm.
  destruct (addNewClient_some socket _ _ _ Hm)
    as (st2 & Hrun & Hh & Hc & Hcnt & _ & Hnet & _).
  apply malloc_inv in Hm as (_ & _ & _ & _ & _ & _ & _ & Hfresh & _).
  rewrite (bind_Ok _ _ _ _ _ Hrun).
  unfold removeClient. erewrite bind_Ok by reflexivity.
  rewrite Hc, decide_True by done.
  assert (heap st2 !! c =
            Some (mkClientList socket (Client socket) (clients st))) as Hn
    by (rewrite Hh; apply lookup_insert_eq).
  rewrite (bind_Ok _ _ _ _ _ (load_live _ _ _ Hn)).
  erewrite bind_Ok by reflexivity.
  erewrite bind_Ok by (eapply free_live; simpl; exact Hn).
  erewrite bind_Ok by reflexivity.
  eexists. split; [reflexivity|]. simpl.
  rewrite Hh, Hcnt, Hnet. split; [by apply delete_insert_id|].
  repeat split. lia.
Qed.

Lemma insert_remove_roundtrip_witness :
  (∃ st1, malloc three_clients = Ok (Some 9%positive, st1)) ∧
  ∃ st', (addNewClient 7;; removeClient (Some 9%positive)) three_clients
           = Ok (tt, st') ∧
    heap st' = heap three_clients ∧ clientCount st' = 3%Z.
Proof.
  split; [eexists; reflexivity|].
  destruct (insert_remove_roundtrip 7 three_clients _ 9%positive eq_refl)
    as (st' & Hrun & Hh & _ & Hcnt & _).
  exists st'. split; [exact Hrun|]. split; [exact Hh | exact Hcnt].
Defined.

(** X6 -- Removing twice is harmless.  In a registry, where the count is
    the number of nodes of the chain, after [removeClient] has removed a
    node, a second call with the same, now dangling, pointer changes
    nothing: the block is not freed again and the count is not decremented
    again, it is the number of nodes left. *)
Theorem remove_twice st l1 c l2 :
  nodes st = Some (l1 ++ c :: l2) →
  clientCount st = Z.of_nat (length (l1 ++ c :: l2)) →
  ∃ st', removeClient (Some c) st = Ok (tt, st') ∧
    (removeClient (Some c);; removeClient (Some c)) st = Ok (tt, st') ∧
    clientCount st' = (clientCount st - 1)%Z ∧
    clientCount st' = Z.of_nat (length (l1 ++ l2)) ∧
    nodes st' = Some (l1 ++ l2).
Proof.
  intros Hl Hsize.
  destruct (removeClient_present st l1 c l2 Hl)
    as (st' & Hrun & Hn & Hcnt & _).
  exists st'. split; [done|].
  assert (clientCount st' = Z.of_nat (length (l1 ++ l2))) as Hsize'.
  { rewrite Hcnt, Hsize, !length_app. simpl. lia. }
  split; [|done].
  rewrite (bind_Ok _ _ _ _ _ Hrun).
  eapply removeClient_absent; [done|].
  apply nodes_chain, is_chain_NoDup in Hl.
  apply NoDup_app in Hl as (_ & Hdisj & [Hc2 _]%NoDup_cons).
  intros [Hc1|?]%elem_of_app; [|done]. by eapply Hdisj; [|left].
Qed.

Lemma remove_twice_witness :
  (nodes three_clients = Some ([3%positive] ++ 2%positive :: [1%positive]) ∧
   clientCount three_clients =
     Z.of_nat (length ([3%positive] ++ 2%positive :: [1%positive]))) ∧
  ∃ st', (removeClient (Some 2%positive);; removeClient (Some 2%positive))
           three_clients = Ok (tt, st') ∧
    clientCount st' = 2%Z.
Proof.
  split; [split; reflexivity|].
  destruct (remove_twice three_clients [3%positive] 2%positive [1%positive]
              eq_refl eq_refl) as (st' & _ & Hrun & Hcnt & _).
  exists st'. split; [exact Hrun | exact Hcnt].
Defined.
End composition.


(** ** Failing writes and full servers *)

Section edge_cases.
Implicit Types (st : State) (l : list addr) (a b c : addr).

Lemma drain_events_writes i rx : ∀ wf,
  (λ x, x.1.2) <$> write_calls (drain_events i rx wf) = rx ∧
  (λ x, x.1.2) <$> filter (λ x, x.2 ≠ 0%Z) (write_calls (drain_events i rx wf))
    = echoed rx wf ∧
  Forall (λ x, x.1.1 = i) (write_calls (drain_events i rx wf)).
Proof.
  induction rx as [|ch rx IH]; intros wf; [by repeat split|].
  destruct (IH (tail wf)) as (IH1 & IH2 & IH3).
  assert (write_calls (drain_events i (ch :: rx) wf) =
            (i, ch, if hd false wf then 0%Z else 1%Z)
              :: write_calls (drain_events i rx (tail wf))) as ->.
  { unfold write_calls. simpl. by destruct (hd false wf). }
  split; [by rewrite fmap_cons, IH1|]. split; [|by constructor].
  cbn [echoed]. destruct (hd false wf).
  - rewrite filter_cons_False by (simpl; lia). by rewrite IH2.
  - rewrite filter_cons_True by done. by rewrite fmap_cons, IH2.
Qed.

(** X7 -- A failed write loses its byte.  The drain of a session reads
    every unread byte and calls [write] for it exactly once, in arrival
    order, whatever the writes answer: it never retries.  The session's
    output grows by the bytes whose write did not answer 0, and nothing is
    left unread, so a byte whose write failed is gone. *)
Theorem drain_never_retries i n s st :
  heap st !! i = Some n →
  net st !! client_socket (client n) = Some s →
  ∃ st' evs s', echoLoop_drain (drain_budget i st) i st = Ok (tt, st') ∧
    trace st' = trace st ++ evs ∧
    (λ x, x.1.2) <$> write_calls evs = rxbuf s ∧
    Forall (λ x, x.1.1 = i) (write_calls evs) ∧
    net st' !! client_socket (client n) = Some s' ∧
    rxbuf s' = [] ∧
    txlog s' = txlog s ++
      ((λ x, x.1.2) <$> filter (λ x, x.2 ≠ 0%Z) (write_calls evs)).
Proof.
  intros Hn Hs.
  destruct (echoLoop_drain_session i n (rxbuf s) s st (S (length (rxbuf s))))
    as (st' & Hrun & _ & Hnet & Htr); [done..|lia|].
  destruct (drain_events_writes i (rxbuf s) (wfail s)) as (Hw1 & Hw2 & Hw3).
  exists st', (drain_events i (rxbuf s) (wfail s)), (drained s). split.
  { unfold drain_budget, session_of. rewrite Hn. simpl. by rewrite Hs. }
  repeat (split; [done|]).
  split; [by rewrite Hnet, lookup_insert_eq|]. split; [done|].
  simpl. by rewrite Hw2.
Qed.

Lemma drain_never_retries_witness :
  (heap three_clients !! 3%positive = Some (node 6 (Some 2%positive)) ∧
   net three_clients !! 6%Z = Some (mkSession ["x"]%byte [] [true] true)) ∧
  ∃ st' s', echoLoop_drain (drain_budget 3 three_clients) 3 three_clients
              = Ok (tt, st') ∧
    net st' !! 6%Z = Some s' ∧ rxbuf s' = [] ∧ txlog s' = [].
Proof.
  split; [split; reflexivity|].
  destruct (drain_never_retries 3 (node 6 (Some 2%positive))
              (mkSession ["x"]%byte [] [true] true) three_clients
              eq_refl eq_refl)
    as (st' & evs & s' & Hrun & _ & _ & _ & Hs' & Hrx & _).
  exists st', s'. split; [exact Hrun|]. split; [exact Hs'|].
  split; [exact Hrx|].
  injection Hrun as <-. injection Hs' as <-. reflexivity.
Defined.

Lemma kept_all st l : (∀ a, a ∈ l → alive st a = true) → kept st l = l.
Proof.
  unfold kept. induction l as [|a l IH]; intros Hal; [done|].
  rewrite filter_cons_True by (apply Hal; left).
  rewrite IH; [done|]. intros b Hb. apply Hal. by right.
Qed.

(** X8 -- A full server and its waiting connections.  Let the registry
    hold [MAX_CLIENTS] nodes.  The tick is the pass followed by the accept
    phase, and the pass calls [accept] never.  If all the nodes are
    connected, the tick calls [accept] not at all and leaves the waiting
    connections and the chain as they are.  If a node has disconnected, the
    pass removes it (its block is freed, it is no node of the chain the
    pass leaves, the count drops below [MAX_CLIENTS]) and the accept phase
    of the same tick then calls [accept] once, taking the next waiting
    connection; the chain the tick leaves is what the accept phase added
    in front of the nodes that were connected. *)
Theorem full_server_tick st l :
  nodes st = Some l →
  clientCount st = Z.of_nat (length l) →
  clientCount st = MAX_CLIENTS →
  ∃ st1 st' ev1 ev2 new,
    echoLoop_pass st = Ok (tt, st1) ∧
    echoLoop_accept st1 = Ok (tt, st') ∧
    echoLoop st = Ok (tt, st') ∧
    trace st1 = trace st ++ ev1 ∧
    trace st' = trace st ++ ev1 ++ ev2 ∧
    accept_calls ev1 = [] ∧
    nodes st1 = Some (kept st l) ∧
    clientCount st1 = Z.of_nat (length (kept st l)) ∧
    nodes st' = Some (new ++ kept st l) ∧
    length new ≤ 1 ∧
    ((∀ a, a ∈ l → alive st a = true) →
       accept_calls (ev1 ++ ev2) = [] ∧ pending st' = pending st ∧
       nodes st' = Some l) ∧
    (∀ a, a ∈ l → alive st a = false →
       EvFree a ∈ ev1 ∧
       heap st1 !! a = None ∧
       (a ∉ kept st l) ∧
       (clientCount st1 < MAX_CLIENTS)%Z ∧
       accept_calls ev2 = [hd (-1)%Z (pending st)] ∧
       accept_calls (ev1 ++ ev2) = [hd (-1)%Z (pending st)] ∧
       pending st' = tail (pending st)).
Proof.
  intros Hl Hcnt Hfull.
  destruct (echoLoop_pass_chain st l Hl)
    as (st1 & ev1 & Hpass & Hn1 & Hcnt1 & Htr1 & Hshape & Hgone & _ & _ & _
        & Hpe1 & _).
  destruct (echoLoop_accept_chain st1 _ Hn1)
    as (st2 & new & ev2 & Hacc & Hn2 & _ & Htr2 & Hnew & Hac2 & _ & _ & _ & _
        & Hpe2).
  pose proof (pass_trace_checks _ _ _ _ Hshape) as [_ Hac1].
  exists st1, st2, ev1, ev2, new.
  split; [done|]. split; [done|]. split.
  { unfold echoLoop. by rewrite (bind_Ok _ _ _ _ _ Hpass). }
  split; [done|].
  split; [by rewrite Htr2, Htr1, <- app_assoc|].
  split; [done|]. split; [done|].
  assert (length (kept st l) ≤ length l) as Hle.
  { unfold kept. apply length_filter. }
  split; [lia|]. split; [done|].
  split; [destruct Hnew as [->|(c & -> & _)]; simpl; lia|].
  rewrite accept_calls_app, Hac1, Hac2, Hpe2, Hpe1. simpl. split.
  - intros Hal. rewrite (kept_all _ _ Hal) in *.
    assert (¬ (clientCount st1 < MAX_CLIENTS)%Z) as Hcap by lia.
    rewrite !decide_False by done. split; [done|]. split; [done|].
    destruct Hnew as [->|(c & _ & _ & ? & _)]; [done | lia].
  - intros a Ha Hdead.
    assert (length (kept st l) < length l) as Hlt.
    { unfold kept. eapply length_filter_lt; [done|]. by rewrite Hdead. }
    split; [by eapply pass_trace_free|].
    split; [by apply Hgone|].
    split; [rewrite kept_elem; intros [? _]; congruence|].
    split; [lia|].
    rewrite !decide_True by lia. done.
Qed.

Lemma full_server_tick_witness :
  (nodes three_clients = Some [3; 2; 1]%positive ∧
   clientCount three_clients = Z.of_nat (length [3; 2; 1]%positive) ∧
   clientCount three_clients = MAX_CLIENTS ∧
   alive three_clients 2%positive = false) ∧
  ∃ st1 st' ev1 ev2,
    echoLoop_pass three_clients = Ok (tt, st1) ∧
    echoLoop three_clients = Ok (tt, st') ∧
    trace st' = trace three_clients ++ ev1 ++ ev2 ∧
    EvFree 2 ∈ ev1 ∧ heap st1 !! 2%positive = None ∧
    accept_calls ev1 = [] ∧ accept_calls ev2 = [7%Z] ∧
    pending st' = [8%Z].
Proof.
  split; [split; [reflexivity | split; [reflexivity | split; reflexivity]]|].
  destruct (full_server_tick three_clients [3; 2; 1]%positive
              eq_refl eq_refl eq_refl)
    as (st1 & st' & ev1 & ev2 & new & Hpass & _ & Hrun & _ & Htr & Hac1 & _
        & _ & _ & _ & _ & Hdead).
  destruct (Hdead 2%positive) as (Hfree & Hgone & _ & _ & Hac2 & _ & Hpe);
    [right; left | reflexivity|].
  exists st1, st', ev1, ev2.
  split; [exact Hpass|]. split; [exact Hrun|]. split; [exact Htr|].
  split; [exact Hfree|]. split; [exact Hgone|]. split; [exact Hac1|].
  split; [exact Hac2 | exact Hpe].
Defined.
End edge_cases.

(** ** Booting *)

Section boot.
Implicit Types (b : Boot) (fw : Firmware) (st : State).

Ltac elem_of_calls H :=
  repeat (apply elem_of_cons in H as [H|H]; [try discriminate H|]);
  try (by apply elem_of_nil in H).

Lemma echoSetup_inv b b' :
  echoSetup b = Done b' →
  firmware_listens (firmware b) ∧
  initial (sketch b') ∧
  listenSocket (sketch b') = fw_socket (firmware b) ∧
  heap (sketch b') = heap (sketch b) ∧ net (sketch b') = net (sketch b) ∧
  calls b' = calls b ++ echoSetup_calls (fw_socket (firmware b)) ∧
  trace (sketch b') =
    trace (sketch b) ++ [EvPrintln "Listening for connections..."].
Proof.
  unfold echoSetup, firmware_listens. simpl.
  repeat case_decide; try done. intros [= <-]. simpl.
  split; [lia|]. split; [done|]. rewrite <- !app_assoc. done.
Qed.

Lemma echoSetup_listens b :
  firmware_listens (firmware b) → ∃ d, echoSetup b = Done d.
Proof.
  unfold echoSetup, firmware_listens. simpl. intros (? & ? & ? & ? & ?).
  repeat case_decide; try lia. eauto.
Qed.

(** X9 -- [echoSetup] returns only listening.  When [echoSetup] returns,
    the firmware has accepted the timeout setting and has answered the
    [socket], [setsockopt], [bind] and [listen] calls with non-negative
    values; these five calls have been made, in this order, on the socket
    the firmware gave, for port 7 and without backlog; the registry is
    empty ([clients = NULL], [clientCount = 0]), which is where the runs of
    the server start, and [listenSocket] is that socket. *)
Theorem echoSetup_done b b' :
  echoSetup b = Done b' →
  firmware_listens (firmware b) ∧
  initial (sketch b') ∧ reachable (sketch b') ∧
  listenSocket (sketch b') = fw_socket (firmware b) ∧
  heap (sketch b') = heap (sketch b) ∧ net (sketch b') = net (sketch b) ∧
  calls b' = calls b ++ echoSetup_calls (fw_socket (firmware b)) ∧
  trace (sketch b') =
    trace (sketch b) ++ [EvPrintln "Listening for connections..."].
Proof.
  intros (Hok & Hi & Hsd & Hh & Hnet & Hcalls & Htr)%echoSetup_inv.
  repeat (split; [done|]). split; [by constructor | done].
Qed.

Lemma echoSetup_done_witness :
  ∃ b', echoSetup no_dhcp_board = Done b' ∧
    listenSocket (sketch b') = 2%Z ∧
    calls b' = [CallNetappTimeoutValues 14400 3600 30 0; CallSocket;
                CallSetsockopt 2; CallBind 2 0 7; CallListen 2 0].
Proof.
  eexists. split; [reflexivity|].
  destruct (echoSetup_done no_dhcp_board _ eq_refl)
    as (_ & _ & _ & Hsd & _ & _ & Hcalls & _).
  split; [exact Hsd | exact Hcalls].
Defined.

(** X10 -- [echoSetup] never misuses the socket.  Whatever the firmware
    answers, [echoSetup] returns or halts (it polls nothing); it returns
    when the firmware lets it through; the socket it passes to
    [setsockopt], [bind] and [listen] is the one [socket] answered, and is
    not negative; it binds only a socket it has made non-blocking and
    listens only on a socket it has bound; and when it halts it has printed
    one message and has left the registry alone. *)
Theorem echoSetup_safe b :
  let new := drop (length (calls b)) (calls (boot_of (echoSetup b))) in
  (∀ p, echoSetup b ≠ Polling p) ∧
  (firmware_listens (firmware b) → ∃ d, echoSetup b = Done d) ∧
  (∀ sd, (CallSetsockopt sd ∈ new ∨ (∃ a p, CallBind sd a p ∈ new)
          ∨ (∃ k, CallListen sd k ∈ new)) →
         sd = fw_socket (firmware b) ∧ (0 ≤ sd)%Z) ∧
  ((∃ sd a p, CallBind sd a p ∈ new) → (0 ≤ fw_setsockopt (firmware b))%Z) ∧
  ((∃ sd k, CallListen sd k ∈ new) → (0 ≤ fw_bind (firmware b))%Z) ∧
  (∀ h, echoSetup b = Halted h →
        clients (sketch h) = clients (sketch b) ∧
        clientCount (sketch h) = clientCount (sketch b) ∧
        heap (sketch h) = heap (sketch b) ∧
        ∃ msg, trace (sketch h) = trace (sketch b) ++ [EvPrintln msg]).
Proof.
  unfold echoSetup, firmware_listens. simpl.
  repeat case_decide; simpl; rewrite <- ?app_assoc, drop_app_length; simpl;
    (split; [done|]); (split; [intros; first [lia | eauto]|]);
    (split; [intros sd [Hin|[(a & p & Hin)|(k & Hin)]]; elem_of_calls Hin;
             (injection Hin as ->; split; [done | lia])|]);
    (split; [intros (sd & a & p & Hin); elem_of_calls Hin; lia|]);
    (split; [intros (sd & k & Hin); elem_of_calls Hin; lia|]);
    intros h; try done; intros [= <-]; simpl; eauto.
Qed.

Lemma setup_wait_dhcp_inv : ∀ fuel b b',
  setup_wait_dhcp fuel b = Done b' →
  true ∈ dhcp b ∧ sketch b' = sketch b ∧ firmware b' = firmware b ∧
  addresses b' = addresses b.
Proof.
  induction fuel as [|fuel IH]; intros b b'; [done|]. simpl.
  destruct (dhcp b) as [|[] l] eqn:Hl; simpl.
  - intros (Hin & ? & ? & ?)%IH. simpl in Hin. by apply elem_of_nil in Hin.
  - intros [= <-]. simpl. split; [left | done].
  - intros (Hin & ? & ? & ?)%IH. simpl in *. split; [by right | done].
Qed.

Lemma setup_wait_dhcp_done : ∀ l b fuel,
  dhcp b = l → true ∈ l → length l < fuel →
  ∃ b', setup_wait_dhcp fuel b = Done b'.
Proof.
  induction l as [|r l IH]; intros b fuel Hl Hin Hf;
    [by apply elem_of_nil in Hin|].
  destruct fuel as [|fuel]; [simpl in Hf; lia|]. simpl. rewrite Hl. simpl.
  destruct r; simpl; [eauto|].
  apply IH; simpl; [done| |simpl in Hf; lia].
  by apply elem_of_cons in Hin as [?|?].
Qed.

Lemma setup_wait_dhcp_never : ∀ fuel b,
  true ∉ dhcp b →
  ∃ p polls, setup_wait_dhcp fuel b = Polling p ∧
    sketch p = sketch b ∧ calls p = calls b ++ polls ∧
    Forall (λ c, c = CallCheckDHCP ∨ c = CallDelay 100) polls.
Proof.
  induction fuel as [|fuel IH]; intros b Hnever; simpl.
  - exists b, []. by rewrite app_nil_r.
  - assert (hd false (dhcp b) = false ∧ true ∉ tail (dhcp b)) as [-> Htl].
    { destruct (dhcp b) as [|[] l]; simpl.
      - split; [done | apply not_elem_of_nil].
      - destruct Hnever. left.
      - split; [done|]. intros ?. apply Hnever. by right. }
    simpl. edestruct IH as (p & polls & -> & Hsk & Hcalls & Hpolls);
      [exact Htl|].
    exists p, (CallCheckDHCP :: CallDelay 100 :: polls).
    split; [done|]. split; [done|]. split.
    + rewrite Hcalls. simpl. by rewrite <- !app_assoc.
    + constructor; [by left|]. constructor; [by right | done].
Qed.

Lemma displayConnectionDetails_inv b :
  let (r, b') := displayConnectionDetails b in
  (r = true ↔ ∃ a, hd None (addresses b) = Some a) ∧
  same_registry (sketch b) (sketch b') ∧ net (sketch b') = net (sketch b) ∧
  firmware b' = firmware b ∧ addresses b' = tail (addresses b).
Proof.
  unfold displayConnectionDetails, getIPAddress.
  destruct (hd None (addresses b)) as [[[[[? ?] ?] ?] ?]|]; simpl.
  - split; [split; eauto|]. done.
  - split; [split; [done | by intros [? ?]]|]. done.
Qed.

Lemma setup_wait_details_inv : ∀ fuel b b',
  setup_wait_details fuel b = Done b' →
  (∃ a, Some a ∈ addresses b) ∧
  same_registry (sketch b) (sketch b') ∧ net (sketch b') = net (sketch b) ∧
  firmware b' = firmware b.
Proof.
  induction fuel as [|fuel IH]; intros b b'; [done|]. simpl.
  pose proof (displayConnectionDetails_inv b) as Hd.
  destruct (displayConnectionDetails b) as [r b1].
  destruct Hd as (Hr & Hsame & Hnet & Hfw & Haddr).
  destruct r; simpl.
  - intros [= <-]. split; [|done].
    destruct Hr as [[a Ha] _]; [done|]. exists a.
    destruct (addresses b); simpl in Ha; [done|]. rewrite Ha. left.
  - intros ((a & Hin) & Hsame' & Hnet' & Hfw')%IH. simpl in *.
    split.
    + exists a. rewrite Haddr in Hin.
      destruct (addresses b); [done | by right].
    + destruct Hsame as (? & ? & ? & ? & ? & ?).
      destruct Hsame' as (? & ? & ? & ? & ? & ?).
      repeat split; congruence.
Qed.

Lemma setup_wait_details_done : ∀ l b fuel,
  addresses b = l → (∃ a, Some a ∈ l) → length l < fuel →
  ∃ b', setup_wait_details fuel b = Done b'.
Proof.
  induction l as [|r l IH]; intros b fuel Hl [a Hin] Hf;
    [by apply elem_of_nil in Hin|].
  destruct fuel as [|fuel]; [simpl in Hf; lia|]. simpl.
  pose proof (displayConnectionDetails_inv b) as Hd.
  destruct (displayConnectionDetails b) as [ok b1].
  destruct Hd as (Hr & _ & _ & _ & Haddr). rewrite Hl in Hr, Haddr.
  destruct ok; simpl; [eauto|].
  apply IH; simpl; [done| |simpl in Hf; lia].
  exists a. apply elem_of_cons in Hin as [<-|?]; [|done].
  destruct Hr as [_ Hr]. discriminate Hr. by exists a.
Qed.

(** [setup] up to its first polling loop. *)
Lemma setup_polls b :
  fw_begin (firmware b) = true → fw_connectToAP (firmware b) = true →
  ∃ b0,
    setup b =
      and_then (setup_wait_dhcp (S (length (dhcp b))) b0) (λ b1,
      and_then (setup_wait_details (S (length (addresses b1))) b1) echoSetup) ∧
    same_registry (sketch b) (sketch b0) ∧ net (sketch b0) = net (sketch b) ∧
    firmware b0 = firmware b ∧ dhcp b0 = dhcp b ∧
    addresses b0 = addresses b ∧
    calls b0 = calls b ++ [CallSerialBegin 115200; CallGetFreeRam; CallBegin;
                           CallConnectToAP WLAN_SSID WLAN_PASS].
Proof.
  intros Hb Hc. unfold setup.
  cbn -[setup_wait_dhcp setup_wait_details echoSetup].
  rewrite Hb, Hc. cbn -[setup_wait_dhcp setup_wait_details echoSetup].
  eexists. split; [reflexivity|]. simpl. rewrite <- !app_assoc. done.
Qed.

Lemma setup_inv b b' :
  setup b = Done b' →
  (fw_begin (firmware b) = true ∧ fw_connectToAP (firmware b) = true ∧
   true ∈ dhcp b ∧ (∃ a, Some a ∈ addresses b) ∧
   firmware_listens (firmware b)) ∧
  initial (sketch b') ∧
  listenSocket (sketch b') = fw_socket (firmware b) ∧
  heap (sketch b') = heap (sketch b) ∧ net (sketch b') = net (sketch b).
Proof.
  intros Hrun.
  destruct (fw_begin (firmware b)) eqn:Hb.
  2:{ unfold setup in Hrun. cbn in Hrun. by rewrite Hb in Hrun. }
  destruct (fw_connectToAP (firmware b)) eqn:Hc.
  2:{ unfold setup in Hrun. cbn in Hrun. by rewrite Hb, Hc in Hrun. }
  destruct (setup_polls b Hb Hc)
    as (b0 & Heq & Hsame0 & Hnet0 & Hfw0 & Hdhcp0 & Haddr0 & _).
  rewrite Heq in Hrun.
  destruct (setup_wait_dhcp _ b0) as [b1| |] eqn:Hw1; [|done..].
  apply setup_wait_dhcp_inv in Hw1 as (Hin1 & Hsk1 & Hfw1 & Haddr1).
  cbn [and_then] in Hrun.
  destruct (setup_wait_details _ b1) as [b2| |] eqn:Hw2; [|done..].
  apply setup_wait_details_inv in Hw2 as (Hin2 & Hsame2 & Hnet2 & Hfw2).
  cbn [and_then] in Hrun.
  apply echoSetup_inv in Hrun as (Hok & Hi & Hsd & Hh & Hnet & _).
  destruct Hsame0 as (Hh0 & _). destruct Hsame2 as (Hh2 & _).
  rewrite <- Hdhcp0, <- Haddr0, <- Haddr1, <- Hfw0, <- Hfw1, <- Hfw2.
  repeat (split; [done|]). split; congruence.
Qed.

(** X11 -- When [setup] completes.  [setup] returns, and hands over to
    [loop], exactly when the module initialises, the access point is
    joined, some poll of [checkDHCP] answers true, some call of
    [getIPAddress] succeeds, and the firmware lets [echoSetup] through. *)
Theorem setup_completes b :
  (∃ b', setup b = Done b') ↔
  fw_begin (firmware b) = true ∧ fw_connectToAP (firmware b) = true ∧
  true ∈ dhcp b ∧ (∃ a, Some a ∈ addresses b) ∧
  firmware_listens (firmware b).
Proof.
  split.
  - intros [b' Hrun]. by apply setup_inv in Hrun as [? _].
  - intros (Hb & Hc & Hdhcp & Haddr & Hok).
    destruct (setup_polls b Hb Hc)
      as (b0 & -> & _ & _ & Hfw0 & Hdhcp0 & Haddr0 & _).
    destruct (setup_wait_dhcp_done (dhcp b) b0 (S (length (dhcp b))))
      as [b1 Hw1]; [done..|lia|].
    rewrite Hw1. cbn [and_then].
    apply setup_wait_dhcp_inv in Hw1 as (_ & _ & Hfw1 & Haddr1).
    destruct (setup_wait_details_done (addresses b1) b1
                (S (length (addresses b1)))) as [b2 Hw2]; [done| |lia|].
    { by rewrite Haddr1, Haddr0. }
    rewrite Hw2. cbn [and_then].
    apply setup_wait_details_inv in Hw2 as (_ & _ & _ & Hfw2).
    apply echoSetup_listens. by rewrite Hfw2, Hfw1, Hfw0.
Qed.

(** X12 -- From [setup] to [loop].  When [setup] returns, the registry is
    empty and [listenSocket] is the socket the firmware gave; and in every
    state the sketch then passes through, calling [loop] again and again
    while the world moves, the count is the number of nodes of the chain,
    it is at most [MAX_CLIENTS], and the next call of [loop] returns. *)
Theorem setup_then_loop b b' st :
  setup b = Done b' →
  run_from (sketch b') st →
  initial (sketch b') ∧
  listenSocket (sketch b') = fw_socket (firmware b) ∧
  (∃ l, nodes st = Some l ∧ clientCount st = Z.of_nat (length l)) ∧
  (clientCount st ≤ MAX_CLIENTS)%Z ∧
  ∃ st', loop st = Ok (tt, st').
Proof.
  intros (_ & Hi & Hsd & _)%setup_inv Hrun.
  split; [done|]. split; [done|].
  assert (size_ok st ∧ (clientCount st ≤ MAX_CLIENTS)%Z) as [Hsz Hcap].
  { induction Hrun as [|st st' _ [IH1 IH2] (Hh & Hc & Hn & _)
                      |st st' _ [IH1 IH2] Htick].
    - split; [by apply initial_size_ok|].
      destruct Hi as (_ & ->). unfold MAX_CLIENTS. lia.
    - split; [|by rewrite Hn]. destruct IH1 as (l & Hl & Hcnt).
      exists l. unfold nodes in *. by rewrite Hh, Hc, Hn.
    - destruct (echoLoop_capped st IH1 IH2) as (st'' & Htick' & ? & ?).
      rewrite Htick in Htick'. by injection Htick' as <-. }
  split; [done|]. split; [done|].
  destruct (echoLoop_capped st Hsz Hcap) as (st' & ? & _). by exists st'.
Qed.

(** X13 -- The DHCP wait has no timeout.  On a module that initialises
    and joins the access point, if no poll of [checkDHCP] ever answers
    true, [setup] neither returns nor halts: it polls for ever, calling
    nothing but [checkDHCP] and [delay(100)], and never gets to read the
    address or to open the listening socket. *)
Theorem setup_waits_for_dhcp b :
  fw_begin (firmware b) = true → fw_connectToAP (firmware b) = true →
  true ∉ dhcp b →
  ∃ p polls, setup b = Polling p ∧
    calls p = calls b ++ [CallSerialBegin 115200; CallGetFreeRam; CallBegin;
                          CallConnectToAP WLAN_SSID WLAN_PASS] ++ polls ∧
    Forall (λ c, c = CallCheckDHCP ∨ c = CallDelay 100) polls ∧
    clients (sketch p) = clients (sketch b) ∧
    clientCount (sketch p) = clientCount (sketch b).
Proof.
  intros Hb Hc Hnever.
  destruct (setup_polls b Hb Hc)
    as (b0 & -> & Hsame0 & _ & _ & Hdhcp0 & _ & Hcalls0).
  destruct (setup_wait_dhcp_never (S (length (dhcp b))) b0)
    as (p & polls & -> & Hsk & Hcalls & Hpolls); [by rewrite Hdhcp0|].
  exists p, polls. split; [done|].
  split; [by rewrite Hcalls, Hcalls0, <- app_assoc|]. split; [done|].
  destruct Hsame0 as (_ & ? & ? & _). by rewrite Hsk.
Qed.

Lemma setup_then_loop_witness :
  ∃ b', setup good_board = Done b' ∧
    clients (sketch b') = NULL ∧ listenSocket (sketch b') = 2%Z ∧
    ∃ st', loop (sketch b') = Ok (tt, st').
Proof.
  assert (∃ b', setup good_board = Done b') as [b' Hrun]
    by (eexists; vm_compute; reflexivity).
  exists b'. split; [exact Hrun|].
  destruct (setup_then_loop good_board b' (sketch b') Hrun (run_start _))
    as ((Hc & _) & Hsd & _ & _ & Hloop).
  split; [exact Hc|]. split; [exact Hsd | exact Hloop].
Defined.

Lemma setup_waits_for_dhcp_witness :
  (fw_begin (firmware no_dhcp_board) = true ∧
   fw_connectToAP (firmware no_dhcp_board) = true ∧
   true ∉ dhcp no_dhcp_board) ∧
  ∃ p, setup no_dhcp_board = Polling p.
Proof.
  assert (true ∉ dhcp no_dhcp_board) as Hnever.
  { intros Hin. repeat (apply elem_of_cons in Hin as [Hin|Hin];
      [discriminate Hin|]). by apply elem_of_nil in Hin. }
  split; [split; [reflexivity | split; [reflexivity | exact Hnever]]|].
  destruct (setup_waits_for_dhcp no_dhcp_board eq_refl eq_refl Hnever)
    as (p & polls & Hrun & _).
  exists p. exact Hrun.
Defined.
End boot.

(** ** The firmware version *)

Section firmware_version.

Lemma uint8_range z : (0 ≤ uint8 z < 256)%Z.
Proof. unfold uint8. apply Z.mod_pos_bound. lia. Qed.

Lemma lor_shifted_byte M m :
  (0 ≤ M)%Z → Z.lor (Z.shiftl M 8) (uint8 m) = (M * 256 + uint8 m)%Z.
Proof.
  intros HM. rewrite Z.shiftl_mul_pow2 by lia.
  change (2 ^ 8)%Z with 256%Z.
  rewrite <- Z.lxor_lor, <- Z.add_nocarry_lxor; [done|..];
    apply Z.bits_inj'; intros n Hn;
    rewrite Z.land_spec, Z.bits_0;
    (destruct (decide (n < 8)%Z);
     [replace (M * 256)%Z with (M * 2 ^ 8)%Z by lia;
      by rewrite Z.mul_pow2_bits_low by lia
     |unfold uint8; rewrite (Z.mod_pow2_bits_high m 8 n) by lia;
      apply andb_false_r]).
Qed.

Lemma pack_version M m :
  uint16 (Z.lor (uint16 (Z.shiftl (uint16 (uint8 M)) 8)) (uint8 m))
    = (uint8 M * 256 + uint8 m)%Z.
Proof.
  pose proof (uint8_range M) as HM. pose proof (uint8_range m) as Hm.
  unfold uint16 at 3. rewrite (Z.mod_small (uint8 M)) by lia.
  rewrite Z.shiftl_mul_pow2 by lia. unfold uint16 at 2.
  rewrite Z.mod_small by lia. rewrite <- Z.shiftl_mul_pow2 by lia.
  rewrite lor_shifted_byte by lia. unfold uint16. apply Z.mod_small. lia.
Qed.

(** X14 -- The firmware version is packed major byte high.
    [checkFirmwareVersion] always returns and prints only.  Its result is
    [major * 256 + minor] when the version could be read, so that the major
    number is its high byte and the minor number its low byte, and 0 when
    it could not; hence it is the [0x113] that [setup] insists on exactly
    when the firmware answers version 1.19, and a failed read counts as a
    wrong version. *)
Theorem checkFirmwareVersion_packs (r : option (Z * Z)) (st : State) :
  ∃ v st', checkFirmwareVersion r st = Ok (v, st') ∧
    same_registry st st' ∧ net st' = net st ∧
    v = match r with
        | Some (major, minor) => (uint8 major * 256 + uint8 minor)%Z
        | None => 0%Z
        end ∧
    (v = 0x113%Z ↔
       ∃ major minor, r = Some (major, minor) ∧
         uint8 major = 1%Z ∧ uint8 minor = 0x13%Z) ∧
    (∀ major minor, r = Some (major, minor) →
       Z.shiftr v 8 = uint8 major ∧ Z.land v 255 = uint8 minor).
Proof.
  destruct r as [[major minor]|]; unfold checkFirmwareVersion.
  - unfold Serial_print, Serial_print_int, Serial_println_int.
    do 4 (erewrite bind_Ok by reflexivity). cbv zeta.
    eexists _, _. split; [reflexivity|]. rewrite pack_version.
    pose proof (uint8_range major) as HM. pose proof (uint8_range minor) as Hm.
    split; [done|]. split; [done|]. split; [done|]. split.
    + split.
      * intros Hv. exists major, minor. split; [done|]. lia.
      * intros (? & ? & [= <- <-] & ? & ?). lia.
    + intros ? ? [= <- <-]. split.
      * rewrite Z.shiftr_div_pow2 by lia. change (2 ^ 8)%Z with 256%Z.
        rewrite Z.add_comm, Z.div_add by lia. rewrite Z.div_small by lia. lia.
      * change 255%Z with (Z.ones 8). rewrite Z.land_ones by lia.
        change (2 ^ 8)%Z with 256%Z.
        rewrite Z.add_comm, Z.mod_add by lia. apply Z.mod_small. lia.
  - unfold Serial_println. erewrite bind_Ok by reflexivity.
    eexists _, _. split; [reflexivity|].
    split; [done|]. split; [done|]. split; [done|]. split.
    + split; [done|]. by intros (? & ? & ? & _).
    + by intros.
Qed.
End firmware_version.

